(** * mkbootimage: the command-line driver of the boot-image generator

    A shallow embedding of [src/mkbootimage.c]: the file-name derivation
    [derive_filename], the argument callback [argp_parser] and the driver
    [main], which sequences the BIF parser, the size estimator and the image
    compositor and writes the composed image to the output file.

    C strings are [string]s (a pointer into one is an offset from its
    start), [int], [uint32_t] and [size_t] values are [Z], a pointer that may
    be NULL is an [option]. *)

From Stdlib Require Import ZArith List Bool Ascii String Lia.
From Stdlib Require HexString.
Import ListNotations.

Local Open Scope string_scope.
Local Open Scope Z_scope.

(** ** C strings *)

Module CString.

(** [strlen] as a [size_t]. *)
Definition strlen (s : string) : Z := Z.of_nat (String.length s).

(** [strrchr s c], for [c] other than NUL: the offset of the last occurrence
    of [c] in [s], [None] for the NULL result. *)
Fixpoint strrchr (s : string) (c : ascii) : option nat :=
  match s with
  | EmptyString => None
  | String a rest =>
      match strrchr rest c with
      | Some i => Some (S i)
      | None => if Ascii.eqb a c then Some O else None
      end
  end.

(** The string seen through the pointer [s + n]. *)
Fixpoint advance (n : nat) (s : string) : string :=
  match n, s with
  | O, _ => s
  | S n', String _ rest => advance n' rest
  | S _, EmptyString => EmptyString
  end.

(** The first [n] characters of [s], what [memcpy (out, s, n)] copies. *)
Definition prefix (n : nat) (s : string) : string := substring 0 n s.

(** [c] occurs in [s]. *)
Fixpoint occurs (c : ascii) (s : string) : bool :=
  match s with
  | EmptyString => false
  | String a rest => Ascii.eqb a c || occurs c rest
  end.

End CString.

Import CString.

(** ** [derive_filename] *)

(** Lines 64-76: the offset of [base] in [src], just past the last ['/'] or
    ['\'], whichever comes later, or the start of [src]. *)
Definition basename_offset (src : string) : nat :=
  let sep := strrchr src "/" in
  let sep_back := strrchr src "\" in
  let base :=
    match sep, sep_back with
    | None, _ => sep_back
    | Some b, Some sb => if (b <? sb)%nat then sep_back else sep
    | Some _, None => sep
    end in
  match base with
  | Some b => S b
  | None => O
  end.

(** Lines 78-82: [prefix_len], up to the last ['.'] of the base name or the
    whole of [src]. *)
Definition derive_prefix_len (src : string) : nat :=
  let base := basename_offset src in
  match strrchr (advance base src) "." with
  | Some dot => (base + dot)%nat
  | None => String.length src
  end.

(** Lines 84-88: the size of the allocation and the string built in it. *)
Definition derive_alloc_size (src new_ext : string) : Z :=
  Z.of_nat (derive_prefix_len src) + strlen new_ext + 1.

Definition derive_contents (src new_ext : string) : string :=
  prefix (derive_prefix_len src) src ++ new_ext.

(** ** The power-of-two rounding loop of [main] *)

Definition UINT32_MOD : Z := 2 ^ 32.

(** [while (esize_aligned < esize) esize_aligned *= 2;] on [uint32_t]s, run
    for at most [fuel] iterations: [None] when the condition still holds
    after them. *)
Fixpoint align_loop (fuel : nat) (esize_aligned esize : Z) : option Z :=
  if esize_aligned <? esize then
    match fuel with
    | O => None
    | S fuel' => align_loop fuel' ((esize_aligned * 2) mod UINT32_MOD) esize
    end
  else Some esize_aligned.

(** [esize_aligned = 2; while ...]: 32 iterations decide the loop, see
    [align_loop_settled]. *)
Definition align_to_pow2 (esize : Z) : option Z := align_loop 32 2 esize.

(** The values [esize_aligned] takes: the powers of two from 2 to 2^31,
    then zero for ever. *)
Definition doubling_state (x : Z) : Prop :=
  x = 0 \/ exists k, 1 <= k <= 31 /\ x = 2 ^ k.

(** ** Declarations the driver takes from headers *)

(** [EXIT_SUCCESS] and [EXIT_FAILURE] of <stdlib.h>; the latter is what
    [ret] holds until a path of [main] assigns it. *)
Definition EXIT_SUCCESS : Z := 0.
Definition EXIT_FAILURE : Z := 1.

(** The keys <argp.h> passes to a parser callback besides option
    characters, and the "not mine" result of a callback. *)
Definition ARGP_KEY_ARG : Z := 0.
Definition ARGP_KEY_END : Z := 0x1000001.
Definition ARGP_ERR_UNKNOWN : Z := 7.

(** An option's key is its character. *)
Definition key_of (c : ascii) : Z := Z.of_N (N_of_ascii c).

(** Modelled from the spec: [bif.h] is not part of the sources at hand.
    [bif_arch], [bif_node] and [bif_cfg] are the "Configuration" and
    "Partition Descriptor" of the data model, with the members [main] reads
    ([arch], [nodes_num], [nodes[i].fname], [.bootloader], [.load],
    [.offset]); [nodes_num] is the length of the node array. *)
Inductive bif_arch : Type := BIF_ARCH_ZYNQ | BIF_ARCH_ZYNQMP.

Record bif_node : Type := {
  fname : string;
  bootloader : bool;
  load : Z;
  offset : Z
}.

Record bif_cfg : Type := {
  arch : bif_arch;
  nodes : list bif_node
}.

Definition nodes_num (cfg : bif_cfg) : Z := Z.of_nat (List.length (nodes cfg)).

Definition set_arch (cfg : bif_cfg) (a : bif_arch) : bif_cfg :=
  {| arch := a; nodes := nodes cfg |}.

(** Modelled from the spec: [arch/zynq.h] and [arch/zynqmp.h] are missing.
    [main] only takes the address of the two operations tables ("a pair of
    interchangeable strategy implementations (Zynq, ZynqMP)"), so a
    [bootrom_ops_t *] is the name of the table it points to. *)
Inductive bootrom_ops_ref : Type := zynq_bops | zynqmp_bops.

(** Modelled from the spec: [common.h] is missing. The members of its
    error enumeration that [main] names ("out-of-memory,
    output-not-writable, no-partitions-produced") and the version string
    [MKBOOTIMAGE_VER] are parameters; zero is the no-error value that the
    [if (err)] tests of [main] read. [SIZE_BITS], the width of [size_t], is
    the one parameter of the platform. *)
Class Constants : Type := {
  MKBOOTIMAGE_VER : string;
  ERROR_NOMEM : Z;
  ERROR_CANT_WRITE : Z;
  ERROR_BOOTROM_NOFILE : Z;
  SIZE_BITS : Z
}.

(** A block of the heap: the [n]-th allocation of the run. *)
Inductive block : Type := Block (n : nat).

(** The functions [main] calls that live outside [mkbootimage.c], as the
    run's environment: each gives what the call returns and leaves in the
    objects it is handed.
    - [init_bif_cfg]: the configuration [init_bif_cfg (&cfg)] leaves;
    - [bif_parse fname cfg], [bif_parse_buf buf len label cfg]: the error
      code and the configuration after the call;
    - [estimate_boot_image_size cfg]: the estimate, in words;
    - [create_boot_image cfg bops]: the error code, [*ofile_size] and the
      words of the buffer after the call, by index;
    - [malloc_ok n size]: whether the [n]-th allocation of the run, of
      [size] bytes, succeeds;
    - [fopen_ok path]: whether [fopen (path, "wb")] succeeds. *)
Class Externals : Type := {
  init_bif_cfg : bif_cfg;
  bif_parse : string -> bif_cfg -> Z * bif_cfg;
  bif_parse_buf : string -> Z -> string -> bif_cfg -> Z * bif_cfg;
  estimate_boot_image_size : bif_cfg -> Z;
  create_boot_image : bif_cfg -> bootrom_ops_ref -> Z * Z * (nat -> Z);
  malloc_ok : nat -> Z -> bool;
  fopen_ok : string -> bool
}.

(** ** Runs: what the driver does to the world *)

(** One event for each call [main] makes outside its file, with the
    arguments passed and what came back: the pointer of [malloc], the error
    code and the configuration a parser entry point leaves, the estimate,
    the error code and [*ofile_size] of the compositor, whether [fopen]
    gave a stream, the words [fwrite] is asked to write. *)
Inductive event : Type :=
| Malloc (size : Z) (p : option block)
| Free (p : block)
| Printf (out : string)
| Errorf (out : string)
| InitBifCfg
| BifParse (fname : string) (cfg : bif_cfg) (err : Z) (cfg' : bif_cfg)
| BifParseBuf (buf : string) (len : Z) (label : string) (cfg : bif_cfg)
    (err : Z) (cfg' : bif_cfg)
| EstimateBootImageSize (cfg : bif_cfg) (esize : Z)
| CreateBootImage (file_data : block) (cfg : bif_cfg) (bops : bootrom_ops_ref)
    (err : Z) (ofile_size : Z)
| Fopen (path mode : string) (ok : bool)
| Fwrite (p : block) (size count : Z) (words : list Z)
| Fclose
| DeinitBifCfg.

(** How a run ends: [main] returns, [argp_usage] ends the process, the
    rounding loop never exits, or a NULL pointer is used as a string. *)
Inductive outcome : Type :=
| Returned (ret : Z)
| UsageExit
| Hangs
| Undefined.

(** A statement either falls through with a value or leaves [main]. *)
Inductive flow (A : Type) : Type :=
| Continue (a : A)
| Leave (o : outcome).
Arguments Continue {A} a.
Arguments Leave {A} o.

(** Commands: from the number of allocations made so far to the events
    performed, the new count and the flow. *)
Definition M (A : Type) : Type := nat -> list event * nat * flow A.

Definition ret {A : Type} (a : A) : M A := fun n => ([], n, Continue a).

Definition bind {A B : Type} (m : M A) (k : A -> M B) : M B :=
  fun n =>
    match m n with
    | (t, n', Continue a) =>
        match k a n' with
        | (t', n'', f) => ((t ++ t')%list, n'', f)
        end
    | (t, n', Leave o) => (t, n', Leave o)
    end.

Definition emit (e : event) : M unit := fun n => ([e], n, Continue tt).

Definition leave {A : Type} (o : outcome) : M A := fun n => ([], n, Leave o).

Declare Scope cmd_scope.
Delimit Scope cmd_scope with cmd.
Notation "x <- c1 ;; c2" := (bind c1 (fun x => c2))
  (at level 100, c1 at next level, right associativity) : cmd_scope.
Notation "' pat <- c1 ;; c2" := (bind c1 (fun x => match x with pat => c2 end))
  (at level 100, pat pattern, c1 at next level, right associativity) : cmd_scope.
Notation "c1 ;; c2" := (bind c1 (fun _ => c2))
  (at level 100, right associativity) : cmd_scope.

Definition nl : string := String "010"%char EmptyString.

(** ["%08x"] of a [uint32_t]: lower-case hexadecimal digits, padded with
    zeros on the left to eight characters. *)
Fixpoint zeros (n : nat) : string :=
  match n with
  | O => EmptyString
  | S n' => String "0" (zeros n')
  end.

Definition hex_digits (v : Z) : string :=
  match Z.to_N v with
  | N0 => "0"
  | Npos p => HexString.Raw.of_pos p EmptyString
  end.

Definition hex08 (v : Z) : string :=
  zeros (8 - String.length (hex_digits v)) ++ hex_digits v.

(** ** The argument parser *)

Record arguments : Type := {
  zynqmp : bool;
  parse_only : bool;
  bit2bin : bool;
  bif_filename : option string;
  bin_filename : option string
}.

Definition is_set (p : option string) : bool :=
  match p with Some _ => true | None => false end.

(** What one call of the callback does: it returns an [error_t] and leaves
    the [arguments] updated, or ends the process through [argp_usage]. *)
Inductive parser_result : Type :=
| Parsed (err : Z) (a : arguments)
| Usage.

Definition argp_parser (key : Z) (arg : option string) (arg_num : Z)
    (a : arguments) : parser_result :=
  if key =? key_of "u" then
    Parsed 0 {| zynqmp := true; parse_only := parse_only a; bit2bin := bit2bin a;
                bif_filename := bif_filename a; bin_filename := bin_filename a |}
  else if key =? key_of "p" then
    Parsed 0 {| zynqmp := zynqmp a; parse_only := true; bit2bin := bit2bin a;
                bif_filename := bif_filename a; bin_filename := bin_filename a |}
  else if key =? key_of "b" then
    Parsed 0 {| zynqmp := zynqmp a; parse_only := parse_only a; bit2bin := true;
                bif_filename := bif_filename a; bin_filename := bin_filename a |}
  else if key =? key_of "i" then
    Parsed 0 {| zynqmp := zynqmp a; parse_only := parse_only a; bit2bin := bit2bin a;
                bif_filename := arg; bin_filename := bin_filename a |}
  else if key =? key_of "o" then
    Parsed 0 {| zynqmp := zynqmp a; parse_only := parse_only a; bit2bin := bit2bin a;
                bif_filename := bif_filename a; bin_filename := arg |}
  else if key =? ARGP_KEY_ARG then
    if arg_num =? 0 then
      if is_set (bif_filename a) || is_set (bin_filename a) then Usage
      else
        Parsed 0 {| zynqmp := zynqmp a; parse_only := parse_only a; bit2bin := bit2bin a;
                    bif_filename := arg; bin_filename := bin_filename a |}
    else if arg_num =? 1 then
      if is_set (bin_filename a) then Usage
      else
        Parsed 0 {| zynqmp := zynqmp a; parse_only := parse_only a; bit2bin := bit2bin a;
                    bif_filename := bif_filename a; bin_filename := arg |}
    else Usage
  else if key =? ARGP_KEY_END then
    if negb (is_set (bif_filename a)) && negb (is_set (bin_filename a)) then Usage
    else Parsed 0 a
  else Parsed ARGP_ERR_UNKNOWN a.

(** [memset (&arguments, 0, sizeof (arguments))]. *)
Definition zeroed_arguments : arguments :=
  {| zynqmp := false; parse_only := false; bit2bin := false;
     bif_filename := None; bin_filename := None |}.

(** [argp_parse] belongs to the C library. It is taken here as the caller
    of [argp_parser]: [calls] are the (key, arg) pairs it hands to the
    callback for the command line, in order, and [arg_num] counts the
    positional arguments the callback has accepted. [None] when a call ends
    the process. *)
Fixpoint argp_parse (calls : list (Z * option string)) (arg_num : Z)
    (a : arguments) : option arguments :=
  match calls with
  | [] => Some a
  | (key, arg) :: rest =>
      match argp_parser key arg arg_num a with
      | Usage => None
      | Parsed err a' =>
          argp_parse rest
            (if (key =? ARGP_KEY_ARG) && (err =? 0) then arg_num + 1 else arg_num) a'
      end
  end.

(** ** The driver *)

Section Driver.

Context {K : Constants} {X : Externals}.

Local Open Scope cmd_scope.

Definition malloc (size : Z) : M (option block) :=
  fun n =>
    let p := if malloc_ok n size then Some (Block n) else None in
    ([Malloc size p], S n, Continue p).

(** [free (NULL)] does nothing. *)
Definition free (p : option block) : M unit :=
  match p with
  | Some b => emit (Free b)
  | None => ret tt
  end.

Definition printf (out : string) : M unit := emit (Printf out).

Definition errorf (out : string) : M unit := emit (Errorf out).

(** [sizeof *file_data * n] in [size_t]. *)
Definition sizeof_uint32 : Z := 4.

Definition size_mul (a b : Z) : Z := (a * b) mod 2 ^ SIZE_BITS.

(** The result is the block allocated and the string built in it, [None]
    for NULL. *)
Definition derive_filename (src new_ext : string) : M (option (block * string)) :=
  out <- malloc (derive_alloc_size src new_ext) ;;
  match out with
  | None => ret None
  | Some b => ret (Some (b, derive_contents src new_ext))
  end.

(** The labels at the end of [main]. *)
Definition cleanup {A : Type} (derived_input derived_output : option block)
    (ret : Z) : M A :=
  free derived_input ;;
  free derived_output ;;
  leave (Returned ret).

Definition cleanup_cfg {A : Type} (derived_input derived_output : option block)
    (ret : Z) : M A :=
  emit DeinitBifCfg ;;
  cleanup derived_input derived_output ret.

Definition cleanup_no_file {A : Type} (derived_input derived_output : option block)
    : M A :=
  cleanup_cfg derived_input derived_output ERROR_BOOTROM_NOFILE.

(** The body of the loop over the nodes found. *)
Definition print_node (nd : bif_node) : M unit :=
  printf (" " ++ fname nd) ;;
  (if bootloader nd then printf (" (bootloader)" ++ nl) else printf nl) ;;
  (if load nd =? 0 then ret tt
   else printf ("  load:   " ++ hex08 (load nd) ++ nl)) ;;
  (if offset nd =? 0 then ret tt
   else printf ("  offset: " ++ hex08 (offset nd) ++ nl)).

Fixpoint print_nodes (l : list bif_node) : M unit :=
  match l with
  | [] => ret tt
  | nd :: rest => print_node nd ;; print_nodes rest
  end.

(** The text [snprintf] builds from ["all: { %s }\n"]. *)
Definition bit2bin_document (path : string) : string :=
  "all: { " ++ path ++ " }" ++ nl.

(** The words [fwrite (file_data, sizeof (uint32_t), count, ofile)] reads. *)
Definition words_of (buffer : nat -> Z) (count : Z) : list Z :=
  List.map buffer (List.seq 0 (Z.to_nat count)).

(** Lines 163, 187 and 188: what the flags select. *)
Definition input_ext (a : arguments) : string :=
  if bit2bin a then ".bit" else ".bif".

Definition selected_arch (a : arguments) : bif_arch :=
  if zynqmp a then BIF_ARCH_ZYNQMP else BIF_ARCH_ZYNQ.

Definition selected_bops (a : arguments) : bootrom_ops_ref :=
  if zynqmp a then zynqmp_bops else zynq_bops.

(** Lines 162-170: the input name, and the block derived for it if any. *)
Definition input_name (a : arguments) : M (option block * string) :=
  match bif_filename a with
  | Some f => ret (None, f)
  | None =>
      let ext := input_ext a in
      match bin_filename a with
      | None => leave Undefined
      | Some bin =>
          derived_input <- derive_filename bin ext ;;
          match derived_input with
          | None => cleanup None None ERROR_NOMEM
          | Some (b, f) => ret (Some b, f)
          end
      end
  end.

(** Lines 172-179: the output name, NULL in a parse-only run that was given
    none. *)
Definition output_name (a : arguments) (derived_input : option block)
    (bif_filename : string) : M (option block * option string) :=
  if negb (is_set (bin_filename a)) && negb (parse_only a) then
    derived_output <- derive_filename bif_filename ".bin" ;;
    match derived_output with
    | None => cleanup derived_input None ERROR_NOMEM
    | Some (b, f) => ret (Some b, Some f)
    end
  else ret (None, bin_filename a).

(** Lines 190-201: the parser call, on the synthesized document or on the
    input file. *)
Definition parse_input (a : arguments) (bif_filename : string) (cfg : bif_cfg)
    : M (Z * bif_cfg) :=
  if bit2bin a then
    let doc := bit2bin_document bif_filename in
    let bif_len := strlen doc + 1 in
    bif_buf <- malloc bif_len ;;
    match bif_buf with
    | None => leave (Returned ERROR_NOMEM)
    | Some b =>
        let r := bif_parse_buf doc (strlen doc) "<bit2bin>" cfg in
        emit (BifParseBuf doc (strlen doc) "<bit2bin>" cfg (fst r) (snd r)) ;;
        free (Some b) ;;
        ret r
    end
  else
    let r := bif_parse bif_filename cfg in
    emit (BifParse bif_filename cfg (fst r) (snd r)) ;;
    ret r.

(** Lines 202-279: everything after the parser call. *)
Definition after_parse (a : arguments) (derived_input derived_output : option block)
    (bif_filename : string) (bin_filename : option string)
    (bops : bootrom_ops_ref) (err : Z) (cfg : bif_cfg) : M Empty_set :=
  if negb (err =? 0) then cleanup_cfg derived_input derived_output err
  else if nodes_num cfg =? 0 then cleanup_no_file derived_input derived_output
  else
    printf ("Nodes found in the " ++ bif_filename ++ " file:" ++ nl) ;;
    print_nodes (nodes cfg) ;;
    if parse_only a then
      printf ("The source BIF has a correct syntax" ++ nl) ;;
      cleanup_cfg derived_input derived_output EXIT_SUCCESS
    else
      let esize := estimate_boot_image_size cfg in
      emit (EstimateBootImageSize cfg esize) ;;
      if esize =? 0 then cleanup_no_file derived_input derived_output
      else
        match align_to_pow2 esize with
        | None => leave Hangs
        | Some esize_aligned =>
            file_data <- malloc (size_mul sizeof_uint32 esize_aligned) ;;
            match file_data with
            | None => cleanup_cfg derived_input derived_output ERROR_NOMEM
            | Some fd =>
                let '(err, ofile_size, buffer) := create_boot_image cfg bops in
                emit (CreateBootImage fd cfg bops err ofile_size) ;;
                if negb (err =? 0) then
                  free (Some fd) ;;
                  cleanup_cfg derived_input derived_output err
                else
                  match bin_filename with
                  | None => leave Undefined
                  | Some bin =>
                      let ok := fopen_ok bin in
                      emit (Fopen bin "wb" ok) ;;
                      if negb ok then
                        errorf ("could not open output file: " ++ bin ++ nl) ;;
                        free (Some fd) ;;
                        cleanup_cfg derived_input derived_output ERROR_CANT_WRITE
                      else
                        emit (Fwrite fd sizeof_uint32 ofile_size
                                (words_of buffer ofile_size)) ;;
                        emit Fclose ;;
                        free (Some fd) ;;
                        printf ("All done, quitting" ++ nl) ;;
                        cleanup_cfg derived_input derived_output EXIT_SUCCESS
                  end
            end
        end.

(** Lines 162-279: [main] once [argp_parse] has filled [arguments]. *)
Definition main_body (a : arguments) : M Empty_set :=
  '(derived_input, bif_filename) <- input_name a ;;
  '(derived_output, bin_filename) <- output_name a derived_input bif_filename ;;
  printf (MKBOOTIMAGE_VER ++ nl) ;;
  emit InitBifCfg ;;
  let cfg := set_arch init_bif_cfg (selected_arch a) in
  let bops := selected_bops a in
  '(err, cfg) <- parse_input a bif_filename cfg ;;
  after_parse a derived_input derived_output bif_filename bin_filename bops err cfg.

(** A run of a command from a fresh heap: its events and how it ends. *)
Definition run (m : M Empty_set) : list event * outcome :=
  match m O with
  | (t, _, Leave o) => (t, o)
  | (t, _, Continue e) => (t, match e with end)
  end.

Definition trace (a : arguments) : list event := fst (run (main_body a)).

Definition result (a : arguments) : outcome := snd (run (main_body a)).

(** [main], from the callback calls [argp_parse] makes for [argv]. *)
Definition main (calls : list (Z * option string)) : list event * outcome :=
  match argp_parse calls 0 zeroed_arguments with
  | None => ([], UsageExit)
  | Some a => run (main_body a)
  end.

End Driver.

(** ** Reading runs *)

(** Standard output only: every event is a [printf]. *)
Definition stdout_only (t : list event) : Prop :=
  forall e, In e t -> exists out, e = Printf out.

(** The parser, through either of its entry points, returned [err] and left
    the configuration [cfg]. *)
Definition parser_returned (t : list event) (err : Z) (cfg : bif_cfg) : Prop :=
  (exists fname cfg0, In (BifParse fname cfg0 err cfg) t) \/
  (exists buf len label cfg0, In (BifParseBuf buf len label cfg0 err cfg) t).

(** The compositor returned [err] and reported [ofile_size] words. *)
Definition compositor_returned (t : list event) (err ofile_size : Z) : Prop :=
  exists fd cfg bops, In (CreateBootImage fd cfg bops err ofile_size) t.

Definition is_parser_call (e : event) : bool :=
  match e with
  | BifParse _ _ _ _ | BifParseBuf _ _ _ _ _ _ => true
  | _ => false
  end.

Definition is_compositor_call (e : event) : bool :=
  match e with
  | CreateBootImage _ _ _ _ _ => true
  | _ => false
  end.

(** The calls that build the image: estimator and compositor. *)
Definition builds_image (e : event) : bool :=
  match e with
  | EstimateBootImageSize _ _ | CreateBootImage _ _ _ _ _ => true
  | _ => false
  end.

(** The calls that touch the output file. *)
Definition touches_output (e : event) : bool :=
  match e with
  | Fopen _ _ _ | Fwrite _ _ _ _ | Fclose => true
  | _ => false
  end.

(** No event of [t] touches the output file. *)
Definition no_output (t : list event) : Prop :=
  forall e, In e t -> touches_output e = false.

(** No event of [t] is a call of the estimator or of the compositor. *)
Definition no_image_built (t : list event) : Prop :=
  forall e, In e t -> builds_image e = false.

Definition is_malloc (e : event) : bool :=
  match e with
  | Malloc _ _ => true
  | _ => false
  end.

(** The input path of a run: the one given, or the one derived from the
    output name. *)
Definition input_path (a : arguments) (path : string) : Prop :=
  bif_filename a = Some path \/
  (bif_filename a = None /\
   exists out, bin_filename a = Some out /\ path = derive_contents out (input_ext a)).

(** The allocations of a run are at most the two made on the way to the
    parser: the derived input name and the bit2bin document. *)
Definition input_allocations_only (a : arguments) (t : list event) : Prop :=
  exists name_alloc doc_alloc,
    filter is_malloc t = (name_alloc ++ doc_alloc)%list /\
    (name_alloc = [] \/
     exists out p, bif_filename a = None /\ bin_filename a = Some out /\
                   name_alloc = [Malloc (derive_alloc_size out (input_ext a)) p]) /\
    (doc_alloc = [] \/
     exists path p, bit2bin a = true /\
                    doc_alloc = [Malloc (strlen (bit2bin_document path) + 1) p]).

(** The call hands the callback the option [c]. *)
Definition is_flag (c : ascii) (call : Z * option string) : bool :=
  fst call =? key_of c.

(** ** Paths: directory part and base name *)

Definition is_sep (c : ascii) : bool := Ascii.eqb c "/" || Ascii.eqb c "\".

(** A directory part: empty, or ending in a separator. *)
Fixpoint ends_dir (s : string) : bool :=
  match s with
  | EmptyString => true
  | String c EmptyString => is_sep c
  | String _ rest => ends_dir rest
  end.

(** ** A sample world, for evaluating the driver *)

Module Sample.

(** Sample values for the constants of [common.h]. *)
Definition constants : Constants :=
  {| MKBOOTIMAGE_VER := "mkbootimage 2.3";
     ERROR_NOMEM := 20;
     ERROR_CANT_WRITE := 22;
     ERROR_BOOTROM_NOFILE := 1;
     SIZE_BITS := 64 |}.

(** The same on a platform whose [size_t] has 32 bits. *)
Definition constants_32 : Constants :=
  {| MKBOOTIMAGE_VER := "mkbootimage 2.3";
     ERROR_NOMEM := 20;
     ERROR_CANT_WRITE := 22;
     ERROR_BOOTROM_NOFILE := 1;
     SIZE_BITS := 32 |}.

Definition fsbl : bif_node :=
  {| fname := "fsbl.elf"; bootloader := true; load := 0; offset := 0 |}.

Definition u_boot : bif_node :=
  {| fname := "u-boot.elf"; bootloader := false; load := 0x4000000; offset := 0x1000 |}.

(** A world where ["empty.bif"] parses to no node, ["bad.bif"] does not
    parse, any other file parses to two nodes and a buffer to the one node
    it names; the estimate is [esize], the compositor fails with
    [compose_err] or fills five words, the allocations listed in
    [heap_full] fail and ["/ro/out.bin"] cannot be opened. *)
Definition world (esize compose_err : Z) (heap_full : list nat) : Externals :=
  {| init_bif_cfg := {| arch := BIF_ARCH_ZYNQ; nodes := [] |};
     bif_parse := fun f cfg =>
       if String.eqb f "empty.bif" then (0, cfg)
       else if String.eqb f "bad.bif" then (7, cfg)
       else (0, {| arch := arch cfg; nodes := [fsbl; u_boot] |});
     bif_parse_buf := fun buf len label cfg =>
       (0, {| arch := arch cfg;
              nodes := [{| fname := buf; bootloader := false; load := 0; offset := 0 |}] |});
     estimate_boot_image_size := fun cfg => esize;
     create_boot_image := fun cfg bops => (compose_err, 5, fun i => 100 + Z.of_nat i);
     malloc_ok := fun n size => negb (existsb (Nat.eqb n) heap_full);
     fopen_ok := fun path => negb (String.eqb path "/ro/out.bin") |}.

(** The worlds used below: an image of six words, an estimate beyond 2^31
    words, and a compositor that fails. *)
Definition ordinary : Externals := world 6 0 [].
Definition huge : Externals := world 0x80000001 0 [].
Definition compose_fails : Externals := world 6 9 [].

Definition parsed_cfg : bif_cfg := {| arch := BIF_ARCH_ZYNQ; nodes := [fsbl; u_boot] |}.
Definition empty_cfg : bif_cfg := {| arch := BIF_ARCH_ZYNQ; nodes := [] |}.

Definition args (u p b : bool) (i o : option string) : arguments :=
  {| zynqmp := u; parse_only := p; bit2bin := b; bif_filename := i; bin_filename := o |}.

(** [mkbootimage boot.bif] and variations. *)
Definition build : arguments := args false false false (Some "boot.bif") None.
Definition build_zynqmp : arguments := args true false false (Some "boot.bif") None.
Definition wrap_bitstream : arguments := args false false true None (Some "out/top.bin").
Definition inspect : arguments := args false true false (Some "boot.bif") None.
Definition inspect_empty : arguments := args false true false (Some "empty.bif") None.
Definition inspect_bad : arguments := args false true false (Some "bad.bif") None.

(** [mkbootimage -u boot.bif], as [argp_parse] calls the callback. *)
Definition zynqmp_command_line : list (Z * option string) :=
  [(key_of "u", None); (ARGP_KEY_ARG, Some "boot.bif"); (ARGP_KEY_END, None)].

End Sample.


(** ** The heap and the output stream, as a run uses them *)

Definition block_eqb (b1 b2 : block) : bool :=
  match b1, b2 with
  | Block n, Block m => Nat.eqb n m
  end.

Definition is_live (b : block) (live : list block) : bool :=
  existsb (block_eqb b) live.

Definition release (b : block) (live : list block) : list block :=
  filter (fun b' => negb (block_eqb b b')) live.

(** The blocks still allocated after the events [t], starting from the
    blocks [live]; [None] when [t] allocates a block that is live, frees
    one that is not (a double free, or a free of what was never
    allocated), or hands the compositor or [fwrite] a block that is not
    live. *)
Fixpoint heap_after (live : list block) (t : list event) : option (list block) :=
  match t with
  | [] => Some live
  | Malloc _ (Some b) :: t' =>
      if is_live b live then None else heap_after (b :: live) t'
  | Free b :: t' =>
      if is_live b live then heap_after (release b live) t' else None
  | CreateBootImage b _ _ _ _ :: t' =>
      if is_live b live then heap_after live t' else None
  | Fwrite b _ _ _ :: t' =>
      if is_live b live then heap_after live t' else None
  | _ :: t' => heap_after live t'
  end.

(** What is left to do once [main] has decided to give up: [free] and
    [deinit_bif_cfg]. *)
Definition is_cleanup (e : event) : bool :=
  match e with
  | Free _ | DeinitBifCfg => true
  | _ => false
  end.

Definition is_init (e : event) : bool :=
  match e with
  | InitBifCfg => true
  | _ => false
  end.

Definition is_deinit (e : event) : bool :=
  match e with
  | DeinitBifCfg => true
  | _ => false
  end.

(** [c] is a power of two from 2 to 2^31. *)
Definition capacity (c : Z) : Prop := exists j, 1 <= j <= 31 /\ c = 2 ^ j.

(** The blocks that hold the file names lines 162-179 derive: one at most,
    the first of the run, since a run is given one name at least. *)
Definition derived_name_blocks (a : arguments) : list block :=
  if is_set (bif_filename a) && (is_set (bin_filename a) || parse_only a)
  then [] else [Block 0].

(** Nothing but cleanup: every event of [t] is a [free] or the call of
    [deinit_bif_cfg]. *)
Definition only_cleanup (t : list event) : Prop :=
  forall e, In e t -> is_cleanup e = true.

(** ** Command lines, as [argp_parse] hands them to the callback *)

(** The call is for one of the options [-u], [-p], [-b], [-i], [-o]. *)
Definition is_option (call : Z * option string) : bool :=
  is_flag "u" call || is_flag "p" call || is_flag "b" call ||
  is_flag "i" call || is_flag "o" call.

(** The call is for [-i] or [-o] and carries a file name. *)
Definition names_file (call : Z * option string) : bool :=
  (is_flag "i" call || is_flag "o" call) && is_set (snd call).

(** A call for [-i] or [-o] carries a file name, as [argp_parse] sees to
    for an option declared with an argument. *)
Definition carries_name (call : Z * option string) : bool :=
  if is_flag "i" call || is_flag "o" call then is_set (snd call) else true.

Definition is_positional (call : Z * option string) : bool :=
  fst call =? ARGP_KEY_ARG.

(** The argument of the last call for the option [c], [init] without
    one. *)
Definition last_named (c : ascii) (calls : list (Z * option string))
    (init : option string) : option string :=
  fold_left (fun acc call => if is_flag c call then snd call else acc) calls init.

Definition names_set (a : arguments) : bool :=
  is_set (bif_filename a) || is_set (bin_filename a).

(** ** Extensions *)

(** [s] has none of the characters that end a directory part or start an
    extension: ['/'], ['\'], ['.']. *)
Definition plain (s : string) : bool :=
  negb (occurs "/" s) && negb (occurs "\" s) && negb (occurs "." s).

(** ** The node listing *)

(** The lines the loop of lines 210-220 prints for one node: its name, the
    end of that line, with the bootloader mark if it has one, then its load
    address and its offset, each only when it is not zero. *)
Definition node_lines (nd : bif_node) : list string :=
  List.app
    [" " ++ fname nd; if bootloader nd then " (bootloader)" ++ nl else nl]
    (List.app
       (if load nd =? 0 then [] else ["  load:   " ++ hex08 (load nd) ++ nl])
       (if offset nd =? 0 then [] else ["  offset: " ++ hex08 (offset nd) ++ nl])).

Definition listing_of (l : list bif_node) : list event :=
  List.map Printf (flat_map node_lines l).

(** ** More sample worlds *)

Module MoreSamples.

(** The second allocation of the run fails; the estimate is zero. *)
Definition second_allocation_fails : Externals := Sample.world 6 0 [1%nat].
Definition nothing_to_build : Externals := Sample.world 0 0 [].

(** [mkbootimage -o out.bin in.bif], [mkbootimage -u a.bif b.bin] and
    [mkbootimage -i a.bif -i b.bif -o c.bin], as [argp_parse] calls the
    callback, up to the positional arguments. *)
Definition output_option : list (Z * option string) := [(key_of "o", Some "out.bin")].
Definition zynqmp_flag : list (Z * option string) := [(key_of "u", None)].
Definition repeated_options : list (Z * option string) :=
  [(key_of "i", Some "a.bif"); (key_of "i", Some "b.bif"); (key_of "o", Some "c.bin")].

End MoreSamples.

(** ** The parser's entry points *)




(** * Facts *)

(** ** C strings *)

Section CStringFacts.

Lemma append_assoc (s1 s2 s3 : string) : (s1 ++ s2) ++ s3 = s1 ++ s2 ++ s3.
Proof. induction s1 as [|c s1 IH]; simpl; [reflexivity | now rewrite IH]. Qed.

Lemma append_nil_r (s : string) : s ++ "" = s.
Proof. induction s as [|c s IH]; simpl; [reflexivity | now rewrite IH]. Qed.

Lemma length_append (s1 s2 : string) :
  String.length (s1 ++ s2) = (String.length s1 + String.length s2)%nat.
Proof. induction s1 as [|c s1 IH]; simpl; [reflexivity | now rewrite IH]. Qed.

Lemma strrchr_absent (s : string) (c : ascii) :
  occurs c s = false -> strrchr s c = None.
Proof.
  induction s as [|a s IH]; simpl; [reflexivity|].
  intros H. apply orb_false_elim in H as [Ha Hs].
  now rewrite (IH Hs), Ha.
Qed.

Lemma strrchr_bound (s : string) (c : ascii) (i : nat) :
  strrchr s c = Some i -> (i < String.length s)%nat.
Proof.
  revert i. induction s as [|a s IH]; simpl; intros i; [discriminate|].
  destruct (strrchr s c) as [j|].
  - intros [= <-]. specialize (IH j eq_refl). lia.
  - destruct (Ascii.eqb a c); [intros [= <-]; lia | discriminate].
Qed.

Lemma strrchr_append (s1 s2 : string) (c : ascii) :
  strrchr (s1 ++ s2) c =
  match strrchr s2 c with
  | Some i => Some (String.length s1 + i)%nat
  | None => strrchr s1 c
  end.
Proof.
  induction s1 as [|a s1 IH]; simpl.
  - now destruct (strrchr s2 c).
  - rewrite IH. now destruct (strrchr s2 c).
Qed.

Lemma strrchr_last (stem ext : string) (c : ascii) :
  occurs c ext = false ->
  strrchr (stem ++ String c ext) c = Some (String.length stem).
Proof.
  intros H. rewrite strrchr_append. simpl.
  rewrite (strrchr_absent _ _ H), Ascii.eqb_refl. f_equal. lia.
Qed.

Lemma advance_append (s1 s2 : string) :
  advance (String.length s1) (s1 ++ s2) = s2.
Proof. induction s1 as [|a s1 IH]; simpl; [now destruct s2 | exact IH]. Qed.

Lemma prefix_append (s1 s2 : string) :
  prefix (String.length s1) (s1 ++ s2) = s1.
Proof.
  unfold prefix. induction s1 as [|a s1 IH]; simpl.
  - now destruct s2.
  - now rewrite IH.
Qed.

Lemma prefix_all (s : string) : prefix (String.length s) s = s.
Proof. rewrite <- (append_nil_r s) at 2. apply prefix_append. Qed.

Lemma ends_dir_inv (dir : string) :
  ends_dir dir = true ->
  dir = "" \/ exists d c, dir = d ++ String c "" /\ is_sep c = true.
Proof.
  induction dir as [|a dir IH]; [now left|]. intros H. right.
  destruct dir as [|b dir].
  - exists "", a. now split.
  - destruct (IH H) as [|(d & c & -> & Hc)]; [discriminate|].
    exists (String a d), c. now split.
Qed.

Lemma basename_offset_dir (dir base : string) :
  ends_dir dir = true -> occurs "/" base = false -> occurs "\" base = false ->
  basename_offset (dir ++ base) = String.length dir.
Proof.
  intros Hd Hs Hb. unfold basename_offset.
  destruct (ends_dir_inv dir Hd) as [-> | (d & c & -> & Hc)].
  - simpl. now rewrite (strrchr_absent _ _ Hs), (strrchr_absent _ _ Hb).
  - rewrite append_assoc, !strrchr_append. simpl.
    rewrite (strrchr_absent _ _ Hs), (strrchr_absent _ _ Hb), length_append. simpl.
    unfold is_sep in Hc.
    destruct (Ascii.eqb c "/") eqn:E1.
    + apply Ascii.eqb_eq in E1. subst c. simpl.
      destruct (strrchr d "/") as [i|] eqn:Ei; destruct (strrchr d "\") as [j|] eqn:Ej;
        try (apply strrchr_bound in Ej);
        try (destruct (Nat.ltb_spec (String.length d + 0) j); [lia|]); lia.
    + simpl in Hc. rewrite Hc.
      destruct (strrchr d "/") as [i|] eqn:Ei; [|lia].
      apply strrchr_bound in Ei.
      destruct (Nat.ltb_spec i (String.length d + 0)); lia.
Qed.

Lemma derive_contents_with_dot (dir stem ext new_ext : string) :
  ends_dir dir = true ->
  occurs "/" (stem ++ String "." ext) = false ->
  occurs "\" (stem ++ String "." ext) = false ->
  occurs "." ext = false ->
  derive_contents (dir ++ stem ++ String "." ext) new_ext = dir ++ stem ++ new_ext.
Proof.
  intros Hd Hs Hb He. unfold derive_contents, derive_prefix_len.
  rewrite (basename_offset_dir _ _ Hd Hs Hb), advance_append, (strrchr_last _ _ _ He).
  rewrite <- length_append, <- append_assoc, prefix_append. apply append_assoc.
Qed.

Lemma derive_contents_without_dot (dir base new_ext : string) :
  ends_dir dir = true ->
  occurs "/" base = false -> occurs "\" base = false -> occurs "." base = false ->
  derive_contents (dir ++ base) new_ext = dir ++ base ++ new_ext.
Proof.
  intros Hd Hs Hb He. unfold derive_contents, derive_prefix_len.
  rewrite (basename_offset_dir _ _ Hd Hs Hb), advance_append, (strrchr_absent _ _ He).
  rewrite prefix_all. apply append_assoc.
Qed.

End CStringFacts.

(** ** The rounding loop *)

Section Rounding.

Lemma align_loop_unfold fuel x e :
  align_loop fuel x e =
  if x <? e then
    match fuel with
    | O => None
    | S fuel' => align_loop fuel' ((x * 2) mod UINT32_MOD) e
    end
  else Some x.
Proof. destruct fuel; reflexivity. Qed.

Lemma doubling_state_step x :
  doubling_state x -> doubling_state ((x * 2) mod UINT32_MOD).
Proof.
  intros [-> | (k & Hk & ->)]; [now left|].
  destruct (Z.eq_dec k 31) as [-> | Hne]; [now left|].
  right. exists (k + 1). split; [lia|].
  rewrite Z.pow_add_r, Z.pow_1_r by lia.
  apply Z.mod_small. split; [apply Z.mul_nonneg_nonneg; [apply Z.pow_nonneg|]; lia|].
  unfold UINT32_MOD. replace 32 with ((k + 1) + (31 - k)) by lia.
  rewrite <- (Z.pow_1_r 2) at 2. rewrite <- Z.pow_add_r by lia.
  apply Z.pow_lt_mono_r; lia.
Qed.

Lemma doubling_state_bound x : doubling_state x -> 0 <= x <= 2 ^ 31.
Proof.
  intros [-> | (k & Hk & ->)]; [lia|]. split; [apply Z.pow_nonneg; lia|].
  apply Z.pow_le_mono_r; lia.
Qed.

Lemma align_loop_never_exits esize :
  2 ^ 31 < esize ->
  forall fuel x, doubling_state x -> align_loop fuel x esize = None.
Proof.
  intros He fuel. induction fuel as [|fuel IH]; intros x Hx;
    pose proof (doubling_state_bound x Hx) as Hb; rewrite align_loop_unfold;
    destruct (Z.ltb_spec x esize); try lia; [reflexivity|].
  apply IH, doubling_state_step, Hx.
Qed.

Lemma align_loop_exits esize :
  esize <= 2 ^ 31 ->
  forall fuel k, 1 <= k <= 31 -> (32 <= Z.of_nat fuel + k) ->
  exists j, k <= j <= 31 /\ align_loop fuel (2 ^ k) esize = Some (2 ^ j) /\
            esize <= 2 ^ j /\ (j = k \/ 2 ^ (j - 1) < esize).
Proof.
  intros He fuel. induction fuel as [|fuel IH]; intros k Hk Hf; rewrite align_loop_unfold.
  - lia.
  - destruct (Z.ltb_spec (2 ^ k) esize) as [Hlt|Hge].
    + destruct (Z.eq_dec k 31) as [-> | Hne]; [lia|].
      replace ((2 ^ k * 2) mod UINT32_MOD) with (2 ^ (k + 1)).
      * destruct (IH (k + 1)) as (j & Hj & Hr & Hle & Hmin); [lia | lia |].
        exists j. split; [lia|]. split; [exact Hr|]. split; [exact Hle|]. right.
        destruct Hmin as [-> | Hmin]; [|exact Hmin].
        now replace (k + 1 - 1) with k by lia.
      * rewrite Z.pow_add_r, Z.pow_1_r by lia. symmetry.
        apply Z.mod_small. split; [apply Z.mul_nonneg_nonneg; [apply Z.pow_nonneg|]; lia|].
        unfold UINT32_MOD. replace 32 with ((k + 1) + (31 - k)) by lia.
        rewrite <- (Z.pow_1_r 2) at 2. rewrite <- Z.pow_add_r by lia.
        apply Z.pow_lt_mono_r; lia.
    + exists k. split; [lia|]. split; [reflexivity|]. split; [lia | now left].
Qed.

Lemma align_loop_more_fuel esize fuel x r :
  align_loop fuel x esize = Some r -> align_loop (S fuel) x esize = Some r.
Proof.
  revert x. induction fuel as [|fuel IH]; intros x H;
    rewrite align_loop_unfold in H; rewrite align_loop_unfold;
    destruct (x <? esize); try exact H; [discriminate | apply IH, H].
Qed.

(** 32 iterations decide the loop: more fuel never changes the answer. *)
Lemma align_loop_settled esize fuel :
  (32 <= fuel)%nat -> align_loop fuel 2 esize = align_to_pow2 esize.
Proof.
  intros Hf. unfold align_to_pow2.
  destruct (Z.le_gt_cases esize (2 ^ 31)) as [Hle|Hgt].
  - destruct (align_loop_exits esize Hle 32 1) as (j & _ & H32 & _); [lia | lia |].
    change (2 ^ 1) with 2 in H32. rewrite H32.
    induction Hf as [|m Hm IH]; [exact H32 | now apply align_loop_more_fuel].
  - assert (doubling_state 2) as H2 by (right; exists 1; split; [lia | reflexivity]).
    now rewrite !(align_loop_never_exits esize Hgt _ 2 H2).
Qed.

End Rounding.

(** ** Runs of the driver *)

Section DriverFacts.
Context {K : Constants} {X : Externals}.

Lemma print_node_run nd n :
  exists t, print_node nd n = (t, n, Continue tt) /\ stdout_only t.
Proof.
  unfold print_node, printf, bind, emit, ret.
  destruct (bootloader nd), (load nd =? 0), (offset nd =? 0); simpl;
    eexists; (split; [reflexivity|]); intros e He; simpl in He;
    repeat (destruct He as [<-|He]; [eexists; reflexivity|]); contradiction.
Qed.

Lemma print_nodes_run l n :
  exists t, print_nodes l n = (t, n, Continue tt) /\ stdout_only t.
Proof.
  induction l as [|nd l IH]; simpl.
  - exists []. split; [reflexivity|]. intros e [].
  - unfold bind. destruct (print_node_run nd n) as (t1 & -> & H1).
    destruct IH as (t2 & -> & H2). exists (t1 ++ t2)%list. split; [reflexivity|].
    intros e He. apply in_app_or in He. destruct He; auto.
Qed.

Lemma split_here {A : Type} (e : A) (t : list A) : e :: t = ([] ++ e :: t)%list.
Proof. reflexivity. Qed.

Lemma split_later {A : Type} (x e : A) (t t1 t2 : list A) :
  t = (t1 ++ e :: t2)%list -> x :: t = ((x :: t1) ++ e :: t2)%list.
Proof. now intros ->. Qed.

Lemma split_past {A : Type} (e : A) (l t t1 t2 : list A) :
  t = (t1 ++ e :: t2)%list -> (l ++ t)%list = ((l ++ t1) ++ e :: t2)%list.
Proof. intros ->. now rewrite app_assoc. Qed.

End DriverFacts.


Ltac drive_step :=
  match goal with
  | |- context [print_nodes ?l ?n] =>
      let t := fresh "listing" in
      let H := fresh "Hlisting" in
      destruct (print_nodes_run l n) as (t & -> & H)
  | |- context [is_set ?o] => destruct o eqn:?
  | |- context [?x =? ?y] => destruct (Z.eqb_spec x y)
  | |- context [negb ?x] => destruct x eqn:?
  | |- context [match ?x with _ => _ end] =>
      lazymatch x with
      | context [match _ with _ => _ end] => fail
      | _ => destruct x eqn:?
      end
  end.

Ltac reduce_run := cbn [fst snd app is_set negb andb].

(** Every path through [main_body a], with its events and result written
    out: one goal for each. *)
Ltac drive a :=
  unfold trace, result;
  let r := fresh "r" in
  let Hr := fresh "Hr" in
  remember (run (main_body a)) as r eqn:Hr; revert Hr;
  unfold run, main_body, input_name, output_name, parse_input,
    after_parse, derive_filename, cleanup_no_file, cleanup_cfg, cleanup, free,
    printf, errorf, malloc, bind, emit, ret, leave;
  reduce_run; repeat (drive_step; reduce_run); subst;
  intros Hr; subst r; cbn [fst snd].

(** Membership in a trace that is written out. *)
Ltac in_trace H :=
  repeat match type of H with
  | In _ (_ :: _) => destruct H as [H|H]; [try discriminate H|]
  | In _ (_ ++ _)%list => apply in_app_or in H; destruct H as [H|H]
  | In _ [] => destruct H
  | In _ ?t =>
      match goal with
      | Hl : stdout_only t |- _ =>
          let Hout := fresh in
          destruct (Hl _ H) as [? Hout]; clear H; rename Hout into H;
          try discriminate H
      end
  end.

Ltac find_split := repeat first [ apply split_here | apply split_later | apply split_past ].
Ltac find_in := solve [ repeat first [ left; reflexivity | right | apply in_or_app; right ] ].
Ltac absent := let e := fresh "e" in let He := fresh "He" in
  intros e He; in_trace He; subst e; reflexivity.


Lemma filter_stdout (f : event -> bool) (t : list event) :
  stdout_only t -> (forall out, f (Printf out) = false) -> filter f t = [].
Proof.
  intros Ht Hf. induction t as [|e t IH]; [reflexivity|]. simpl.
  destruct (Ht e (or_introl eq_refl)) as [out ->]. rewrite Hf.
  apply IH. intros e' He'. apply Ht. now right.
Qed.

Lemma nodes_num_zero (cfg : bif_cfg) : nodes_num cfg = 0 <-> nodes cfg = [].
Proof.
  unfold nodes_num. destruct (nodes cfg); simpl; split; intros H;
    try reflexivity; try discriminate; lia.
Qed.

(** The events of a trace that is written out, filtered. *)
Ltac filter_trace :=
  cbn [filter app is_parser_call is_compositor_call is_malloc];
  repeat (rewrite filter_app;
          match goal with
          | Hl : stdout_only ?t |- context [filter ?f ?t] =>
              rewrite (filter_stdout f t Hl) by reflexivity
          end;
          cbn [filter app is_parser_call is_compositor_call is_malloc]).

(** [H] equates two events that differ. *)
Ltac refuted H := solve [ injection H; intros; congruence ].

(** [H] equates an event of the trace with the one looked for. *)
Ltac same_event H := injection H; intros; subst.

Ltac input_allocations :=
  unfold input_allocations_only; filter_trace;
  first
    [ exists [], []; split; [reflexivity | split; left; reflexivity]
    | eexists [_], []; split;
        [reflexivity | split; [right; do 2 eexists; repeat split; eassumption
                              | left; reflexivity]]
    | eexists [], [_]; split;
        [reflexivity | split; [left; reflexivity
                              | right; do 2 eexists; split; [eassumption | reflexivity]]]
    | eexists [_], [_]; split;
        [reflexivity | split; [right; do 2 eexists; repeat split; eassumption
                              | right; do 2 eexists; split; [eassumption | reflexivity]]] ].

(** ** The argument parser *)

Section ArgpFacts.

(** Only the callback's ['u'] case writes [zynqmp], only ['p'] writes
    [parse_only] and only ['b'] writes [bit2bin]. *)
Lemma argp_parser_flags key arg arg_num a err a' :
  argp_parser key arg arg_num a = Parsed err a' ->
  zynqmp a' = zynqmp a || (key =? key_of "u") /\
  parse_only a' = parse_only a || (key =? key_of "p") /\
  bit2bin a' = bit2bin a || (key =? key_of "b").
Proof.
  unfold argp_parser.
  destruct (Z.eqb_spec key (key_of "u")) as [->|_];
    [intros [= <- <-]; cbn; now rewrite !orb_false_r, orb_true_r|].
  destruct (Z.eqb_spec key (key_of "p")) as [->|_];
    [intros [= <- <-]; cbn; now rewrite !orb_false_r, orb_true_r|].
  destruct (Z.eqb_spec key (key_of "b")) as [->|_];
    [intros [= <- <-]; cbn; now rewrite !orb_false_r, orb_true_r|].
  repeat match goal with
         | |- context [if ?c then _ else _] => destruct c
         end; intros [= <- <-] || discriminate; cbn; now rewrite !orb_false_r.
Qed.

Lemma argp_parse_flags calls :
  forall arg_num a0 a,
    argp_parse calls arg_num a0 = Some a ->
    zynqmp a = zynqmp a0 || existsb (is_flag "u") calls /\
    parse_only a = parse_only a0 || existsb (is_flag "p") calls /\
    bit2bin a = bit2bin a0 || existsb (is_flag "b") calls.
Proof.
  induction calls as [|[key arg] calls IH]; cbn [argp_parse existsb];
    intros arg_num a0 a H.
  - injection H as <-. now rewrite !orb_false_r.
  - destruct (argp_parser key arg arg_num a0) as [err a1|] eqn:E; [|discriminate].
    apply IH in H. apply argp_parser_flags in E.
    destruct H as (-> & -> & ->), E as (-> & -> & ->).
    unfold is_flag at 1 3 5. cbn [fst]. now rewrite !orb_assoc.
Qed.

(** The callback's [ARGP_KEY_END] case lets the run go on only with a file
    name. *)
Lemma argp_parse_names calls arg :
  forall arg_num a0 a,
    argp_parse (calls ++ [(ARGP_KEY_END, arg)]) arg_num a0 = Some a ->
    is_set (bif_filename a) || is_set (bin_filename a) = true.
Proof.
  induction calls as [|[key arg'] calls IH]; intros arg_num a0 a H.
  - cbn in H.
    destruct (negb (is_set (bif_filename a0)) && negb (is_set (bin_filename a0))) eqn:E;
      [discriminate|]. injection H as <-.
    destruct (bif_filename a0), (bin_filename a0); try reflexivity; discriminate.
  - cbn [app argp_parse] in H.
    destruct (argp_parser key arg' arg_num a0) as [err a1|]; [|discriminate].
    eapply IH, H.
Qed.

End ArgpFacts.

(** ** Paths *)

Lemma path_splits (src : string) :
  exists dir base,
    src = dir ++ base /\ ends_dir dir = true /\
    occurs "/" base = false /\ occurs "\" base = false.
Proof.
  induction src as [|c src (dir & base & -> & Hd & Hs & Hb)].
  - exists EmptyString, EmptyString. repeat split.
  - destruct dir as [|d dir].
    + destruct (is_sep c) eqn:Ec.
      * exists (String c EmptyString), base. repeat split; assumption.
      * exists EmptyString, (String c base). cbn. unfold is_sep in Ec.
        apply orb_false_elim in Ec as [E1 E2]. rewrite E1, E2.
        repeat split; assumption.
    + exists (String c (String d dir)), base. repeat split; assumption.
Qed.

(** ** What the driver does with its names and its selection *)

Section UseFacts.

Context {K : Constants} {X : Externals}.

Lemma derive_filename_run (src new_ext : string) (n : nat) :
  derive_filename src new_ext n =
  if malloc_ok n (derive_alloc_size src new_ext) then
    ([Malloc (derive_alloc_size src new_ext) (Some (Block n))], S n,
     Continue (Some (Block n, derive_contents src new_ext)))
  else
    ([Malloc (derive_alloc_size src new_ext) None], S n, Continue None).
Proof.
  unfold derive_filename, malloc, bind, ret.
  now destruct (malloc_ok n (derive_alloc_size src new_ext)).
Qed.

(** A NULL name is used only when no name was given at all. *)
Lemma undefined_only_without_names (a : arguments) :
  result a = Undefined -> bif_filename a = None /\ bin_filename a = None.
Proof.
  drive a. all: (discriminate || (intros _; split; reflexivity)).
Qed.

Lemma selection_is_used_throughout :
  forall a : arguments,
    (forall fname cfg0 err cfg, In (BifParse fname cfg0 err cfg) (trace a) ->
       cfg0 = set_arch init_bif_cfg (selected_arch a)) /\
    (forall buf len label cfg0 err cfg,
       In (BifParseBuf buf len label cfg0 err cfg) (trace a) ->
       cfg0 = set_arch init_bif_cfg (selected_arch a)) /\
    (forall fd cfg bops err ofile_size,
       In (CreateBootImage fd cfg bops err ofile_size) (trace a) ->
       bops = selected_bops a /\ parser_returned (trace a) 0 cfg).
Proof.
  intros a. unfold parser_returned. drive a.
  all: split;
    [ intros ? ? ? ? H; in_trace H; same_event H; reflexivity
    | split;
      [ intros ? ? ? ? ? ? H; in_trace H; same_event H; reflexivity
      | intros ? ? ? ? ? H; in_trace H; same_event H;
        (split; [reflexivity|]);
        first [ left; do 2 eexists; find_in | right; do 4 eexists; find_in ] ] ].
Qed.

Lemma derived_names_are_used :
  forall a : arguments,
    (forall out fname cfg0 err cfg,
       bif_filename a = None -> bin_filename a = Some out ->
       In (BifParse fname cfg0 err cfg) (trace a) ->
       bit2bin a = false /\ fname = derive_contents out ".bif") /\
    (forall out buf len label cfg0 err cfg,
       bif_filename a = None -> bin_filename a = Some out ->
       In (BifParseBuf buf len label cfg0 err cfg) (trace a) ->
       bit2bin a = true /\ buf = bit2bin_document (derive_contents out ".bit")) /\
    (forall inp path mode ok,
       bif_filename a = Some inp -> bin_filename a = None ->
       In (Fopen path mode ok) (trace a) ->
       parse_only a = false /\ path = derive_contents inp ".bin").
Proof.
  intros a. drive a.
  all: split;
    [ intros ? ? ? ? ? ? ? H; in_trace H; same_event H;
      unfold input_ext;
      try match goal with Hb : bit2bin _ = _ |- _ => rewrite Hb end;
      split; congruence
    | split;
      [ intros ? ? ? ? ? ? ? ? ? H; in_trace H; same_event H;
        unfold input_ext;
        try match goal with Hb : bit2bin _ = _ |- _ => rewrite Hb end;
        split; congruence
      | intros ? ? ? ? ? ? H; in_trace H; same_event H;
        split; congruence ] ].
Qed.

(** The names lines 162-179 derive, where the run derives them and where
    it uses them. *)
Lemma input_name_is_derived :
  forall (a : arguments) (out : string),
    bif_filename a = None -> bin_filename a = Some out ->
    exists p rest,
      trace a = Malloc (derive_alloc_size out (input_ext a)) p :: rest /\
      (p = None -> rest = [] /\ result a = Returned ERROR_NOMEM) /\
      (p <> None -> bit2bin a = false ->
       exists cfg0 err cfg,
         In (BifParse (derive_contents out ".bif") cfg0 err cfg) rest) /\
      (p <> None -> bit2bin a = true ->
       (forall size, ~ In (Malloc size None) rest) ->
       exists len label cfg0 err cfg,
         In (BifParseBuf (bit2bin_document (derive_contents out ".bit"))
               len label cfg0 err cfg) rest).
Proof.
  intros a out. drive a.
  all: intros Hi Ho; try discriminate Hi; try discriminate Ho.
  all: injection Ho as <-.
  all: do 2 eexists; (split; [reflexivity|]).
  all: split; [intros Hp; first [discriminate Hp | split; reflexivity]|].
  all: unfold input_ext;
    try match goal with Hb : bit2bin _ = _ |- _ => rewrite Hb end.
  all: split;
    [ intros Hp Hb; first [ congruence | do 3 eexists; find_in ]
    | intros Hp Hb Hm; first [ congruence
                             | exfalso; eapply Hm; find_in
                             | do 5 eexists; find_in ] ].
Qed.

Lemma output_name_is_derived :
  forall (a : arguments) (inp : string),
    bif_filename a = Some inp -> bin_filename a = None -> parse_only a = false ->
    exists p rest,
      trace a = Malloc (derive_alloc_size inp ".bin") p :: rest /\
      (p = None -> rest = [] /\ result a = Returned ERROR_NOMEM) /\
      (forall fd cfg bops ofile_size,
         In (CreateBootImage fd cfg bops 0 ofile_size) rest ->
         exists ok, In (Fopen (derive_contents inp ".bin") "wb" ok) rest).
Proof.
  intros a inp. drive a.
  all: intros Hi Ho Hp; try discriminate Hi; try discriminate Ho; try discriminate Hp.
  all: injection Hi as <-.
  all: do 2 eexists; (split; [reflexivity|]).
  all: split; [intros Hn; first [discriminate Hn | split; reflexivity]|].
  all: intros ? ? ? ? H; in_trace H; first [ refuted H | eexists; find_in ].
Qed.

Lemma given_names_are_not_derived :
  forall (a : arguments) (inp out : string),
    bif_filename a = Some inp -> bin_filename a = Some out ->
    exists rest, trace a = Printf (MKBOOTIMAGE_VER ++ nl) :: rest.
Proof.
  intros a inp out. drive a.
  all: intros Hi Ho; try discriminate Hi; try discriminate Ho.
  all: eexists; reflexivity.
Qed.

End UseFacts.

(** * The claims *)

Section Claims.

Context {K : Constants} {X : Externals}.


(** C3. An [fopen] of the run is in mode ["wb"] and comes after a call of
    the compositor that returned no error, with no access to the output
    file before it. When the parser fails, the estimate is zero, an
    allocation fails, the compositor fails or the rounding loop hangs,
    the run has no [fopen], [fwrite] or [fclose] at all. *)
Theorem output_opened_only_after_composition :
  forall a : arguments,
    (forall path mode ok, In (Fopen path mode ok) (trace a) ->
       mode = "wb" /\
       exists before after fd cfg bops ofile_size,
         trace a = (before ++ Fopen path mode ok :: after)%list /\
         In (CreateBootImage fd cfg bops 0 ofile_size) before /\
         no_output before) /\
    (forall err cfg, parser_returned (trace a) err cfg -> err <> 0 -> no_output (trace a)) /\
    (forall cfg, In (EstimateBootImageSize cfg 0) (trace a) -> no_output (trace a)) /\
    (forall size, In (Malloc size None) (trace a) -> no_output (trace a)) /\
    (forall err ofile_size,
       compositor_returned (trace a) err ofile_size -> err <> 0 -> no_output (trace a)) /\
    (result a = Hangs -> no_output (trace a)).
Proof.
  intros a. unfold no_output, parser_returned, compositor_returned. drive a.
  all: split;
    [ intros ? ? ? H; in_trace H; same_event H; (split; [reflexivity|]);
      do 6 eexists; (split; [find_split | split; [find_in | absent]])
    | split;
      [ intros ? ? [(? & ? & H)|(? & ? & ? & ? & H)] ?; in_trace H;
        first [ refuted H | absent ]
      | split;
        [ intros ? H; in_trace H; first [ refuted H | absent ]
        | split;
          [ intros ? H; in_trace H; first [ refuted H | absent ]
          | split;
            [ intros ? ? (? & ? & ? & H) ?; in_trace H; first [ refuted H | absent ]
            | intros H; try discriminate H; absent ] ] ] ] ].
Qed.

(** C4, amended. A run with [--parse-only], whatever the parser returns,
    calls neither the estimator nor the compositor, opens, writes and
    closes no file, allocates nothing but the derived input name and the
    bit2bin document, and lines 172-179 leave the output name as it was
    given, deriving none. When its input parses without error into at
    least one node, the run returns [EXIT_SUCCESS]. *)
Theorem parse_only_touches_nothing :
  forall a : arguments,
    parse_only a = true ->
    no_image_built (trace a) /\
    no_output (trace a) /\
    input_allocations_only a (trace a) /\
    (forall derived_input bif_filename n,
       output_name a derived_input bif_filename n =
       ([], n, Continue (None, bin_filename a))) /\
    (forall cfg : bif_cfg,
       parser_returned (trace a) 0 cfg ->
       nodes cfg <> [] ->
       result a = Returned EXIT_SUCCESS).
Proof.
  intros a Hp. unfold parser_returned, no_image_built, no_output. drive a.
  all: try congruence.
  all: split; [absent|].
  all: split; [absent|].
  all: split; [input_allocations|].
  all: split; [intros; reflexivity|].
  all: intros cfg [(? & ? & H)|(? & ? & ? & ? & H)] Hn; in_trace H.
  all: try refuted H.
  all: same_event H; try reflexivity.
  all: exfalso; apply Hn, nodes_num_zero; assumption.
Qed.

(** C5, amended. When the input parses without error into a configuration
    with no node, the run, parse-only or not, returns
    [ERROR_BOOTROM_NOFILE] after releasing the configuration; it calls
    neither the estimator nor the compositor and does not touch the output
    file. *)
Theorem empty_configuration_is_no_file :
  forall (a : arguments) (cfg : bif_cfg),
    parser_returned (trace a) 0 cfg ->
    nodes cfg = [] ->
    result a = Returned ERROR_BOOTROM_NOFILE /\
    In DeinitBifCfg (trace a) /\
    no_image_built (trace a) /\
    no_output (trace a).
Proof.
  intros a cfg. unfold parser_returned, no_image_built, no_output.
  rewrite <- nodes_num_zero. drive a.
  all: intros [(? & ? & H)|(? & ? & ? & ? & H)] Hn; in_trace H.
  all: try refuted H.
  all: same_event H; try congruence.
  all: split; [reflexivity|].
  all: split; [find_in|].
  all: split; absent.
Qed.


(** C7. When the parser, through either entry point, returns a nonzero
    error, [main] returns that very value and the parser was called once;
    when the compositor returns a nonzero error, [main] returns that very
    value and the compositor was called once. *)
Theorem errors_are_returned_unchanged :
  forall a : arguments,
    (forall err cfg, parser_returned (trace a) err cfg -> err <> 0 ->
       result a = Returned err /\
       List.length (filter is_parser_call (trace a)) = 1%nat) /\
    (forall err ofile_size, compositor_returned (trace a) err ofile_size -> err <> 0 ->
       result a = Returned err /\
       List.length (filter is_compositor_call (trace a)) = 1%nat).
Proof.
  intros a. unfold parser_returned, compositor_returned. drive a.
  all: split;
    [ intros ? ? [(? & ? & H)|(? & ? & ? & ? & H)] ?; in_trace H;
      first [ refuted H
            | same_event H; (split; [reflexivity | filter_trace; reflexivity]) ]
    | intros ? ? (? & ? & ? & H) ?; in_trace H;
      first [ refuted H
            | same_event H; (split; [reflexivity | filter_trace; reflexivity]) ] ].
Qed.

(** C8. The [zynqmp] field is set exactly when the callback was handed the
    option ['u']; the architecture and the operations table are the
    matching pair it selects, Zynq otherwise; every parser call of the run
    receives the initialised configuration with that architecture already
    in it, and every compositor call receives that operations table together
    with the configuration the parser left. *)
Theorem architecture_is_selected_once :
  forall (calls : list (Z * option string)) (a : arguments),
    argp_parse calls 0 zeroed_arguments = Some a ->
    zynqmp a = existsb (is_flag "u") calls /\
    (selected_arch a, selected_bops a) =
      (if existsb (is_flag "u") calls
       then (BIF_ARCH_ZYNQMP, zynqmp_bops)
       else (BIF_ARCH_ZYNQ, zynq_bops)) /\
    (forall fname cfg0 err cfg, In (BifParse fname cfg0 err cfg) (trace a) ->
       cfg0 = set_arch init_bif_cfg (selected_arch a) /\
       arch cfg0 = selected_arch a) /\
    (forall buf len label cfg0 err cfg,
       In (BifParseBuf buf len label cfg0 err cfg) (trace a) ->
       cfg0 = set_arch init_bif_cfg (selected_arch a) /\
       arch cfg0 = selected_arch a) /\
    (forall fd cfg bops err ofile_size,
       In (CreateBootImage fd cfg bops err ofile_size) (trace a) ->
       bops = selected_bops a /\ parser_returned (trace a) 0 cfg).
Proof.
  intros calls a Hargs.
  destruct (argp_parse_flags _ _ _ _ Hargs) as (Hu & _ & _). cbn in Hu.
  destruct (selection_is_used_throughout a) as (Hfile & Hbuf & Hcompose).
  split; [exact Hu|]. split.
  - unfold selected_arch, selected_bops. rewrite <- Hu. now destruct (zynqmp a).
  - split; [|split].
    + intros fname cfg0 err cfg H. rewrite (Hfile _ _ _ _ H). now split.
    + intros buf len label cfg0 err cfg H. rewrite (Hbuf _ _ _ _ _ _ H). now split.
    + exact Hcompose.
Qed.


(** C10. Every path is a directory part, empty or ending in ['/'] or
    ['\'], followed by a base name without either. [derive_filename]
    builds, in a block of its own, the path with the text from the last
    ['.'] of the base name replaced by the new extension, or with the new
    extension appended when the base name has no ['.'], and returns NULL
    when the allocation fails. A run that is given no input name starts by
    deriving one from the output name, with [".bit"] under [--bit2bin] and
    [".bif"] otherwise, and hands it to the parser, as a file name or inside
    the bit2bin document; a run that is given no output name and is not
    parse-only starts by deriving one from the input name with [".bin"] and
    opens it once the image is composed; each ends with [ERROR_NOMEM] and
    nothing else done when that allocation fails. A run that is given both
    names derives none. *)
Theorem derive_filename_replaces_the_extension :
  (forall src, exists dir base,
      src = dir ++ base /\ ends_dir dir = true /\
      occurs "/" base = false /\ occurs "\" base = false) /\
  (forall dir stem ext new_ext,
      ends_dir dir = true ->
      occurs "/" (stem ++ String "." ext) = false ->
      occurs "\" (stem ++ String "." ext) = false ->
      occurs "." ext = false ->
      derive_contents (dir ++ stem ++ String "." ext) new_ext = dir ++ stem ++ new_ext) /\
  (forall dir base new_ext,
      ends_dir dir = true ->
      occurs "/" base = false -> occurs "\" base = false -> occurs "." base = false ->
      derive_contents (dir ++ base) new_ext = dir ++ base ++ new_ext) /\
  (forall src new_ext n,
      derive_filename src new_ext n =
      if malloc_ok n (derive_alloc_size src new_ext) then
        ([Malloc (derive_alloc_size src new_ext) (Some (Block n))], S n,
         Continue (Some (Block n, derive_contents src new_ext)))
      else
        ([Malloc (derive_alloc_size src new_ext) None], S n, Continue None)) /\
  (forall a out fname cfg0 err cfg,
      bif_filename a = None -> bin_filename a = Some out ->
      In (BifParse fname cfg0 err cfg) (trace a) ->
      bit2bin a = false /\ fname = derive_contents out ".bif") /\
  (forall a out buf len label cfg0 err cfg,
      bif_filename a = None -> bin_filename a = Some out ->
      In (BifParseBuf buf len label cfg0 err cfg) (trace a) ->
      bit2bin a = true /\ buf = bit2bin_document (derive_contents out ".bit")) /\
  (forall a inp path mode ok,
      bif_filename a = Some inp -> bin_filename a = None ->
      In (Fopen path mode ok) (trace a) ->
      parse_only a = false /\ path = derive_contents inp ".bin") /\
  (forall a out,
      bif_filename a = None -> bin_filename a = Some out ->
      exists p rest,
        trace a = Malloc (derive_alloc_size out (input_ext a)) p :: rest /\
        (p = None -> rest = [] /\ result a = Returned ERROR_NOMEM) /\
        (p <> None -> bit2bin a = false ->
         exists cfg0 err cfg,
           In (BifParse (derive_contents out ".bif") cfg0 err cfg) rest) /\
        (p <> None -> bit2bin a = true ->
         (forall size, ~ In (Malloc size None) rest) ->
         exists len label cfg0 err cfg,
           In (BifParseBuf (bit2bin_document (derive_contents out ".bit"))
                 len label cfg0 err cfg) rest)) /\
  (forall a inp,
      bif_filename a = Some inp -> bin_filename a = None -> parse_only a = false ->
      exists p rest,
        trace a = Malloc (derive_alloc_size inp ".bin") p :: rest /\
        (p = None -> rest = [] /\ result a = Returned ERROR_NOMEM) /\
        (forall fd cfg bops ofile_size,
           In (CreateBootImage fd cfg bops 0 ofile_size) rest ->
           exists ok, In (Fopen (derive_contents inp ".bin") "wb" ok) rest)) /\
  (forall a inp out,
      bif_filename a = Some inp -> bin_filename a = Some out ->
      exists rest, trace a = Printf (MKBOOTIMAGE_VER ++ nl) :: rest).
Proof.
  split; [exact path_splits|].
  split; [exact derive_contents_with_dot|].
  split; [exact derive_contents_without_dot|].
  split; [exact derive_filename_run|].
  split; [intros a; apply (proj1 (derived_names_are_used a))|].
  split; [intros a; apply (proj1 (proj2 (derived_names_are_used a)))|].
  split; [intros a; apply (proj2 (proj2 (derived_names_are_used a)))|].
  split; [exact input_name_is_derived|].
  split; [exact output_name_is_derived | exact given_names_are_not_derived].
Qed.

End Claims.

(** * Further properties of the driver *)

(** X1. Up to 2^31 words the rounding loop ends, within 31 doublings, on
    the least power of two that is at least 2 and at least the estimate. *)
Theorem rounding_settles_up_to_two_to_31 :
  forall esize : Z,
    0 < esize <= 2 ^ 31 ->
    exists j,
      1 <= j <= 31 /\
      align_to_pow2 esize = Some (2 ^ j) /\
      esize <= 2 ^ j /\
      (j = 1 \/ 2 ^ (j - 1) < esize) /\
      (forall fuel, (32 <= fuel)%nat -> align_loop fuel 2 esize = Some (2 ^ j)).
Proof.
  intros esize [_ Hle].
  destruct (align_loop_exits esize Hle 32 1) as (j & Hj & Hr & Hge & Hmin); [lia | lia |].
  change (2 ^ 1) with 2 in Hr. change (align_loop 32 2 esize) with (align_to_pow2 esize) in Hr.
  exists j. split; [exact Hj|]. split; [exact Hr|]. split; [exact Hge|]. split; [exact Hmin|].
  intros fuel Hf. now rewrite align_loop_settled.
Qed.

Section FurtherProperties.

Context {K : Constants} {X : Externals}.

(** X2. Once [argp_parse] has gone through the callback's [ARGP_KEY_END]
    case, [main] never reads a NULL file name: not in [derive_filename],
    not in [fopen]. *)
Theorem names_are_never_null :
  forall (calls : list (Z * option string)) (arg : option string) (a : arguments),
    argp_parse (calls ++ [(ARGP_KEY_END, arg)]) 0 zeroed_arguments = Some a ->
    result a <> Undefined.
Proof.
  intros calls arg a Hargs Hu.
  apply argp_parse_names in Hargs.
  destruct (undefined_only_without_names a Hu) as [Hi Ho].
  rewrite Hi, Ho in Hargs. discriminate.
Qed.

(** X4. With a [size_t] of at least 34 bits the allocation request
    [sizeof *file_data * esize_aligned] is four times the capacity, for
    every capacity the rounding loop can produce. *)
Theorem allocation_request_is_exact :
  forall j : Z,
    0 <= j <= 31 ->
    34 <= SIZE_BITS ->
    size_mul sizeof_uint32 (2 ^ j) = 4 * 2 ^ j.
Proof.
  intros j Hj Hbits. unfold size_mul, sizeof_uint32.
  apply Z.mod_small. split; [apply Z.mul_nonneg_nonneg; [lia | apply Z.pow_nonneg; lia]|].
  change 4 with (2 ^ 2). rewrite <- Z.pow_add_r by lia.
  apply Z.pow_lt_mono_r; lia.
Qed.

(** X3. The fields [parse_only] and [bit2bin] that [main] reads are set
    exactly when the callback was handed the options ['p'] and ['b']. *)
Theorem flags_are_recorded :
  forall (calls : list (Z * option string)) (a : arguments),
    argp_parse calls 0 zeroed_arguments = Some a ->
    parse_only a = existsb (is_flag "p") calls /\
    bit2bin a = existsb (is_flag "b") calls.
Proof.
  intros calls a Hargs.
  destruct (argp_parse_flags _ _ _ _ Hargs) as (_ & Hp & Hb).
  now split.
Qed.

End FurtherProperties.

(** * The claims at work in the sample world *)

(** Membership in a trace that has been evaluated. *)
Ltac evaluated_in := vm_compute; solve [ repeat first [ left; reflexivity | right ] ].


(** C2, where the code departs from the claim: on the estimate
    [0x80000001] the loop's variable runs through the powers of two up to
    2^31, wraps to zero and stays there, so no number of iterations ends the
    loop, and the run of [mkbootimage boot.bif] stops inside it. *)
Theorem rounding_loop_hangs_on_large_estimate :
  (forall fuel, align_loop fuel 2 0x80000001 = None) /\
  @result Sample.constants Sample.huge Sample.build = Hangs /\
  no_output (@trace Sample.constants Sample.huge Sample.build).
Proof.
  split; [|split].
  - intros fuel. apply align_loop_never_exits; [reflexivity|].
    right. exists 1. split; [lia | reflexivity].
  - reflexivity.
  - intros e He. vm_compute in He.
    repeat (destruct He as [<-|He]; [reflexivity|]). destruct He.
Qed.

(** Witness of C3: the [fopen] of [mkbootimage boot.bif] follows the
    compositor's success. *)
Lemma output_opened_witness :
  "wb" = "wb" /\
  exists before after fd cfg bops ofile_size,
    @trace Sample.constants Sample.ordinary Sample.build =
      (before ++ Fopen "boot.bin" "wb" true :: after)%list /\
    In (CreateBootImage fd cfg bops 0 ofile_size) before /\
    no_output before.
Proof.
  apply (proj1 (@output_opened_only_after_composition Sample.constants
                  Sample.ordinary Sample.build)).
  evaluated_in.
Defined.

(** Counterexample to C4: [mkbootimage -p empty.bif] parses its input
    without error and does not return success. *)
Lemma parse_only_empty_is_not_success :
  parse_only Sample.inspect_empty = true /\
  parser_returned (@trace Sample.constants Sample.ordinary Sample.inspect_empty)
    0 Sample.empty_cfg /\
  @result Sample.constants Sample.ordinary Sample.inspect_empty
    <> Returned EXIT_SUCCESS.
Proof.
  split; [reflexivity|]. split.
  - left. exists "empty.bif", Sample.empty_cfg. evaluated_in.
  - vm_compute. discriminate.
Qed.

(** Witness of C4 as amended: [mkbootimage -p boot.bif] returns success,
    and neither it nor [mkbootimage -p empty.bif] builds an image or touches
    the output file. *)
Lemma parse_only_witness :
  @result Sample.constants Sample.ordinary Sample.inspect = Returned EXIT_SUCCESS /\
  no_image_built (@trace Sample.constants Sample.ordinary Sample.inspect) /\
  no_output (@trace Sample.constants Sample.ordinary Sample.inspect) /\
  no_image_built (@trace Sample.constants Sample.ordinary Sample.inspect_empty) /\
  no_output (@trace Sample.constants Sample.ordinary Sample.inspect_empty).
Proof.
  assert (parser_returned (@trace Sample.constants Sample.ordinary Sample.inspect)
            0 Sample.parsed_cfg) as Hparsed
    by (left; exists "boot.bif", Sample.empty_cfg; evaluated_in).
  destruct (@parse_only_touches_nothing Sample.constants Sample.ordinary
              Sample.inspect eq_refl)
    as (Hi & Ho & _ & _ & Hr).
  destruct (@parse_only_touches_nothing Sample.constants Sample.ordinary
              Sample.inspect_empty eq_refl)
    as (Hi' & Ho' & _).
  split; [exact (Hr Sample.parsed_cfg Hparsed ltac:(discriminate))|].
  exact (conj Hi (conj Ho (conj Hi' Ho'))).
Defined.

(** Counterexample to C5: the empty configuration of [empty.bif], parsed
    without error, makes the parse-only run return [ERROR_BOOTROM_NOFILE],
    1 here, not success. *)
Lemma empty_configuration_fails_inspection :
  parse_only Sample.inspect_empty = true /\
  parser_returned (@trace Sample.constants Sample.ordinary Sample.inspect_empty)
    0 Sample.empty_cfg /\
  nodes Sample.empty_cfg = [] /\
  @result Sample.constants Sample.ordinary Sample.inspect_empty = Returned 1 /\
  Returned 1 <> Returned EXIT_SUCCESS.
Proof.
  split; [reflexivity|]. split; [|split; [reflexivity|split; [reflexivity|discriminate]]].
  left. exists "empty.bif", Sample.empty_cfg. evaluated_in.
Qed.

(** Witness of C5 as amended. *)
Lemma empty_configuration_witness :
  @result Sample.constants Sample.ordinary Sample.inspect_empty = Returned 1 /\
  In DeinitBifCfg (@trace Sample.constants Sample.ordinary Sample.inspect_empty).
Proof.
  assert (parser_returned (@trace Sample.constants Sample.ordinary Sample.inspect_empty)
            0 Sample.empty_cfg) as Hparsed
    by (left; exists "empty.bif", Sample.empty_cfg; evaluated_in).
  destruct (@empty_configuration_is_no_file Sample.constants Sample.ordinary
              Sample.inspect_empty Sample.empty_cfg Hparsed eq_refl)
    as (Hr & Hd & _).
  exact (conj Hr Hd).
Defined.



(** Witness of C7: the parser's error 7 on [bad.bif] and the compositor's
    error 9 are what [main] returns. *)
Lemma errors_returned_witness :
  @result Sample.constants Sample.ordinary Sample.inspect_bad = Returned 7 /\
  @result Sample.constants Sample.compose_fails Sample.build = Returned 9.
Proof.
  split.
  - apply (proj1 (@errors_are_returned_unchanged Sample.constants Sample.ordinary
                    Sample.inspect_bad) 7 Sample.empty_cfg); [|discriminate].
    left. exists "bad.bif", Sample.empty_cfg. evaluated_in.
  - apply (proj2 (@errors_are_returned_unchanged Sample.constants Sample.compose_fails
                    Sample.build) 9 5); [|discriminate].
    exists (Block 1), Sample.parsed_cfg, zynq_bops. evaluated_in.
Defined.

(** Witness of C8: [mkbootimage -u boot.bif] selects ZynqMP. *)
Lemma architecture_witness :
  zynqmp Sample.build_zynqmp = true /\
  (selected_arch Sample.build_zynqmp, selected_bops Sample.build_zynqmp) =
    (BIF_ARCH_ZYNQMP, zynqmp_bops).
Proof.
  destruct (@architecture_is_selected_once Sample.constants Sample.ordinary
              Sample.zynqmp_command_line Sample.build_zynqmp eq_refl)
    as (Hu & Hsel & _).
  exact (conj Hu Hsel).
Defined.


(** Witness of C10: a dot in the directory part is left alone, the
    extension of the base name is replaced, and a base name without one
    gets the new extension appended; [mkbootimage -b -o out/top.bin] parses
    the document that names [out/top.bit], and [mkbootimage boot.bif] opens
    [boot.bin]. *)
Lemma derive_filename_witness :
  derive_contents "build.d\out/boot.v2.bif" ".bin" = "build.d\out/boot.v2.bin" /\
  derive_contents "build.d/boot" ".bin" = "build.d/boot.bin" /\
  (exists len label cfg0 err cfg,
     In (BifParseBuf ("all: { out/top.bit }" ++ nl) len label cfg0 err cfg)
        (@trace Sample.constants Sample.ordinary Sample.wrap_bitstream)) /\
  (exists ok,
     In (Fopen "boot.bin" "wb" ok)
        (@trace Sample.constants Sample.ordinary Sample.build)).
Proof.
  destruct (@derive_filename_replaces_the_extension Sample.constants Sample.ordinary)
    as (_ & Hdot & Hnone & _ & _ & _ & _ & Hin & Hout & _).
  split; [apply (Hdot "build.d\out/" "boot.v2" "bif" ".bin"); reflexivity|].
  split; [apply (Hnone "build.d/" "boot" ".bin"); reflexivity|].
  split.
  - destruct (Hin Sample.wrap_bitstream "out/top.bin" eq_refl eq_refl)
      as (p & rest & Ht & _ & _ & Hbit).
    assert (Hc := Ht). vm_compute in Hc. injection Hc as <- <-.
    destruct Hbit as (len & label & cfg0 & err & cfg & H);
      [discriminate | reflexivity
      | intros size Hm; vm_compute in Hm;
        repeat (destruct Hm as [Hm|Hm]; [discriminate Hm|]); destruct Hm |].
    exists len, label, cfg0, err, cfg. rewrite Ht. right. exact H.
  - destruct (Hout Sample.build "boot.bif" eq_refl eq_refl eq_refl)
      as (p & rest & Ht & _ & Hopen).
    assert (Hc := Ht). vm_compute in Hc. injection Hc as <- <-.
    destruct (Hopen (Block 1) Sample.parsed_cfg zynq_bops 5) as (ok & H);
      [evaluated_in|].
    exists ok. rewrite Ht. right. exact H.
Defined.

(** An estimate of six words is rounded to eight. *)
Lemma rounding_witness :
  exists j, 1 <= j <= 31 /\ align_to_pow2 6 = Some (2 ^ j) /\ 6 <= 2 ^ j.
Proof.
  destruct (rounding_settles_up_to_two_to_31 6 ltac:(lia)) as (j & Hj & Hr & Hge & _).
  exists j. split; [exact Hj|]. split; [exact Hr | exact Hge].
Defined.

(** A buffer of eight words is asked for as 32 bytes. *)
Lemma allocation_witness :
  @size_mul Sample.constants sizeof_uint32 (2 ^ 3) = 4 * 2 ^ 3.
Proof.
  apply (@allocation_request_is_exact Sample.constants 3); [lia | vm_compute; discriminate].
Defined.

(** With a [size_t] of 32 bits the request for 2^30 words wraps to zero
    bytes. *)
Example allocation_wraps_on_narrow_size_t :
  @size_mul Sample.constants_32 sizeof_uint32 (2 ^ 30) = 0.
Proof. reflexivity. Qed.

(** The flags of [mkbootimage -u boot.bif]. *)
Lemma flags_witness :
  parse_only Sample.build_zynqmp = false /\ bit2bin Sample.build_zynqmp = false.
Proof.
  exact (flags_are_recorded Sample.zynqmp_command_line Sample.build_zynqmp eq_refl).
Defined.

(** [mkbootimage -u boot.bif] reads no NULL name. *)
Lemma names_witness :
  @result Sample.constants Sample.ordinary Sample.build_zynqmp <> Undefined.
Proof.
  apply (@names_are_never_null Sample.constants Sample.ordinary
           [(key_of "u", None); (ARGP_KEY_ARG, Some "boot.bif")] None).
  reflexivity.
Defined.

(** * More of the driver *)

(** ** The heap *)

Lemma heap_after_stdout (live : list block) (t1 t2 : list event) :
  stdout_only t1 -> heap_after live (t1 ++ t2) = heap_after live t2.
Proof.
  induction t1 as [|e t1 IH]; intros H; [reflexivity|].
  destruct (H e (or_introl eq_refl)) as [out ->]. cbn.
  apply IH. intros e' He'. apply H. now right.
Qed.

(** The heap after a trace that is written out. *)
Ltac heap_trace :=
  cbn [heap_after is_live release existsb filter block_eqb Nat.eqb negb orb app];
  repeat match goal with
         | Hl : stdout_only ?t |- context [heap_after ?live (?t ++ ?t2)] =>
             rewrite (heap_after_stdout live t t2 Hl);
             cbn [heap_after is_live release existsb filter block_eqb Nat.eqb negb orb app]
         end.

(** The calls of [init_bif_cfg] and [deinit_bif_cfg] of a trace that is
    written out. *)
Ltac cfg_trace :=
  cbn [filter app is_init is_deinit];
  repeat (rewrite filter_app;
          match goal with
          | Hl : stdout_only ?t |- context [filter ?f ?t] =>
              rewrite (filter_stdout f t Hl) by reflexivity
          end;
          cbn [filter app is_init is_deinit]).

(** Rewrite with what the path says about the fields of the arguments. *)
Ltac by_arguments :=
  repeat match goal with
         | H : bif_filename _ = _ |- _ => rewrite H
         | H : bin_filename _ = _ |- _ => rewrite H
         | H : parse_only _ = _ |- _ => rewrite H
         | H : bit2bin _ = _ |- _ => rewrite H
         end.

(** The trace of [Hp] has a parser call, against what [Hp] says. *)
Ltac has_parser_call Hp :=
  match type of Hp with
  | forall e, In e ?t -> _ =>
      match t with
      | context [BifParseBuf ?b ?l ?lab ?c ?err ?c'] =>
          specialize (Hp (BifParseBuf b l lab c err c') ltac:(find_in)); discriminate Hp
      | context [BifParse ?f ?c ?err ?c'] =>
          specialize (Hp (BifParse f c err c') ltac:(find_in)); discriminate Hp
      end
  end.

Ltac cleanup_only := let e := fresh "e" in let He := fresh "He" in
  intros e He; in_trace He; subst e; reflexivity.

Lemma filter_output_stdout (t1 t2 : list event) :
  stdout_only t1 -> filter touches_output (t1 ++ t2) = filter touches_output t2.
Proof.
  intros H. rewrite filter_app, (filter_stdout touches_output t1 H); reflexivity.
Qed.

Ltac output_trace :=
  cbn [filter touches_output app];
  repeat match goal with
         | Hl : stdout_only ?t |- context [filter touches_output (?t ++ ?t2)] =>
             rewrite (filter_output_stdout t t2 Hl); cbn [filter touches_output app]
         end.

Section RoundingResult.

Lemma align_loop_result esize :
  forall fuel x c,
    doubling_state x -> align_loop fuel x esize = Some c ->
    esize <= c /\ doubling_state c.
Proof.
  induction fuel as [|fuel IH]; intros x c Hx; rewrite align_loop_unfold;
    destruct (Z.ltb_spec x esize); try discriminate.
  - intros [= <-]. now split.
  - apply IH, doubling_state_step, Hx.
  - intros [= <-]. now split.
Qed.

(** When the loop ends, it ends on a power of two that holds the
    estimate. *)
Lemma align_to_pow2_capacity esize c :
  align_to_pow2 esize = Some c -> esize <= c /\ capacity c.
Proof.
  intros H. unfold align_to_pow2 in H.
  assert (doubling_state 2) as H2 by (right; exists 1; split; [lia | reflexivity]).
  destruct (align_loop_result esize 32 2 c H2 H) as [Hle [-> | Hc]]; [|now split].
  exfalso. destruct (Z.le_gt_cases esize (2 ^ 31)) as [Hs|Hl].
  - destruct (align_loop_exits esize Hs 32 1) as (j & Hj & Hr & _); [lia | lia |].
    change (2 ^ 1) with 2 in Hr. rewrite Hr in H. injection H as H.
    assert (0 < 2 ^ j) by (apply Z.pow_pos_nonneg; lia). lia.
  - rewrite (align_loop_never_exits esize Hl 32 2 H2) in H. discriminate.
Qed.

End RoundingResult.

Section DriverProperties.

Context {K : Constants} {X : Externals}.

Lemma size_mul_capacity (c : Z) :
  capacity c -> 34 <= SIZE_BITS -> size_mul sizeof_uint32 c = 4 * c.
Proof.
  intros (j & Hj & ->) Hbits. unfold size_mul, sizeof_uint32.
  apply Z.mod_small. split; [apply Z.mul_nonneg_nonneg; [lia | apply Z.pow_nonneg; lia]|].
  change 4 with (2 ^ 2). rewrite <- Z.pow_add_r by lia.
  apply Z.pow_lt_mono_r; lia.
Qed.

(** X5. In every run [main] frees only blocks that are allocated and not
    yet freed, and hands the compositor and [fwrite] only a block that is
    allocated and not yet freed: no double free, no use after free. *)
Theorem heap_is_used_safely :
  forall a : arguments, exists live, heap_after [] (trace a) = Some live.
Proof.
  intros a. drive a. all: heap_trace; eexists; reflexivity.
Qed.

(** X6. When [main] returns, in a run without [--bit2bin] or in one that
    reached the parser, every block it allocated has been freed and every
    [init_bif_cfg] has its [deinit_bif_cfg]. *)
Theorem returns_release_everything :
  forall (a : arguments) (r : Z),
    result a = Returned r ->
    (bit2bin a = false \/ exists e, In e (trace a) /\ is_parser_call e = true) ->
    heap_after [] (trace a) = Some [] /\
    List.length (filter is_deinit (trace a)) = List.length (filter is_init (trace a)).
Proof.
  intros a r. drive a.
  all: intros Hr Hp; try discriminate Hr.
  all: try (split; [heap_trace; reflexivity | cfg_trace; reflexivity]).
  all: destruct Hp as [Hp | (e & He & Hp)]; [congruence|].
  all: in_trace He; subst e; discriminate Hp.
Qed.

(** X7. With [--bit2bin], when the allocation of the document fails, line
    195 returns [ERROR_NOMEM] at once: the run has no [free] and no
    [deinit_bif_cfg], and the block of a derived file name stays
    allocated. *)
Theorem document_allocation_failure_skips_cleanup :
  forall a : arguments,
    bit2bin a = true ->
    In InitBifCfg (trace a) ->
    (forall e, In e (trace a) -> is_parser_call e = false) ->
    result a = Returned ERROR_NOMEM /\
    (forall e, In e (trace a) -> is_cleanup e = false) /\
    heap_after [] (trace a) = Some (derived_name_blocks a).
Proof.
  intros a Hb. drive a.
  all: try congruence.
  all: intros Hi Hp; in_trace Hi.
  all: try has_parser_call Hp.
  all: split; [reflexivity|].
  all: split; [absent|].
  all: heap_trace; unfold derived_name_blocks; by_arguments; reflexivity.
Qed.

(** X8. Whichever allocation fails, [main] returns [ERROR_NOMEM], and
    after the failed [malloc] it does nothing but clean up. *)
Theorem allocation_failure_is_out_of_memory :
  forall (a : arguments) (size : Z),
    In (Malloc size None) (trace a) ->
    result a = Returned ERROR_NOMEM /\
    exists before after,
      trace a = (before ++ Malloc size None :: after)%list /\
      only_cleanup after.
Proof.
  intros a size. unfold only_cleanup. drive a.
  all: intros H; in_trace H; same_event H.
  all: split; [reflexivity|].
  all: do 2 eexists; (split; [find_split | cleanup_only]).
Qed.

(** X9. When the estimator returns zero, [main] returns
    [ERROR_BOOTROM_NOFILE], and after that call it does nothing but clean
    up. *)
Theorem zero_estimate_is_no_file :
  forall (a : arguments) (cfg : bif_cfg),
    In (EstimateBootImageSize cfg 0) (trace a) ->
    result a = Returned ERROR_BOOTROM_NOFILE /\
    exists before after,
      trace a = (before ++ EstimateBootImageSize cfg 0 :: after)%list /\
      only_cleanup after.
Proof.
  intros a cfg. unfold only_cleanup. drive a.
  all: intros H; in_trace H.
  all: try refuted H.
  all: same_event H.
  all: split; [reflexivity|].
  all: do 2 eexists;
       (split;
        [ match goal with
          | Hz : estimate_boot_image_size _ = 0 |- _ => rewrite <- Hz at 2
          end; find_split
        | cleanup_only ]).
Qed.

(** X10. What a run does to the output file is one of three things:
    nothing; one [fopen] in mode ["wb"] that fails, and then [main]
    returns [ERROR_CANT_WRITE]; or one [fopen] that succeeds, one [fwrite]
    of items of four bytes and one [fclose], in this order, and then
    [main] returns [EXIT_SUCCESS]. *)
Theorem output_file_protocol :
  forall a : arguments,
    filter touches_output (trace a) = [] \/
    (exists path,
        filter touches_output (trace a) = [Fopen path "wb" false] /\
        result a = Returned ERROR_CANT_WRITE) \/
    (exists path fd ofile_size words,
        filter touches_output (trace a) =
          [Fopen path "wb" true; Fwrite fd 4 ofile_size words; Fclose] /\
        result a = Returned EXIT_SUCCESS).
Proof.
  intros a. drive a.
  all: output_trace.
  all: first [ left; reflexivity
             | right; left; eexists; split; reflexivity
             | right; right; do 4 eexists; split; reflexivity ].
Qed.

(** X11. What [main] returns is [EXIT_SUCCESS], [ERROR_NOMEM],
    [ERROR_CANT_WRITE], [ERROR_BOOTROM_NOFILE], or the nonzero error the
    parser or the compositor returned in that run: every path that returns
    assigns [ret] one of these. *)
Theorem return_values_of_main :
  forall (a : arguments) (r : Z),
    result a = Returned r ->
    r = EXIT_SUCCESS \/ r = ERROR_NOMEM \/ r = ERROR_CANT_WRITE \/
    r = ERROR_BOOTROM_NOFILE \/
    (r <> 0 /\ exists cfg, parser_returned (trace a) r cfg) \/
    (r <> 0 /\ exists ofile_size, compositor_returned (trace a) r ofile_size).
Proof.
  intros a r. unfold parser_returned, compositor_returned. drive a.
  all: intros Hr; try discriminate Hr; injection Hr as <-.
  all: first [ left; reflexivity
             | right; left; reflexivity
             | right; right; left; reflexivity
             | right; right; right; left; reflexivity
             | right; right; right; right; left;
               (split; [assumption|]); eexists;
               first [ left; do 2 eexists; find_in | right; do 4 eexists; find_in ]
             | right; right; right; right; right;
               (split; [assumption|]); do 4 eexists; find_in ].
Qed.

(** X12. With a [size_t] of at least 34 bits, whenever the compositor is
    called, it is called right after the estimator returned a nonzero
    estimate for the same configuration and [malloc] gave its buffer, of
    four bytes for each of [esize_aligned] words, a power of two from 2 to
    2^31 that is at least the estimate. *)
Theorem compositor_buffer_holds_the_estimate :
  forall (a : arguments) (fd : block) (cfg : bif_cfg) (bops : bootrom_ops_ref)
         (err ofile_size : Z),
    34 <= SIZE_BITS ->
    In (CreateBootImage fd cfg bops err ofile_size) (trace a) ->
    exists esize esize_aligned before after,
      trace a =
        (before ++ EstimateBootImageSize cfg esize
                :: Malloc (4 * esize_aligned) (Some fd)
                :: CreateBootImage fd cfg bops err ofile_size :: after)%list /\
      esize <> 0 /\ esize <= esize_aligned /\ capacity esize_aligned.
Proof.
  intros a fd cfg bops err ofile_size Hbits. drive a.
  all: intros H; in_trace H; same_event H.
  all: match goal with
       | Ha : align_to_pow2 _ = Some _ |- _ =>
           destruct (align_to_pow2_capacity _ _ Ha) as [Hle Hcap]
       end.
  all: rewrite (size_mul_capacity _ Hcap Hbits).
  all: do 4 eexists; (split; [find_split | split; [eassumption | split; assumption]]).
Qed.

(** X13. A file name given on the command line is used as it is: the
    input name is what [bif_parse] is called on, or what the bit2bin
    document names, and the output name is what [fopen] is called on. *)
Theorem given_names_are_used_verbatim :
  forall a : arguments,
    (forall inp fname cfg0 err cfg,
       bif_filename a = Some inp ->
       In (BifParse fname cfg0 err cfg) (trace a) -> fname = inp) /\
    (forall inp buf len label cfg0 err cfg,
       bif_filename a = Some inp ->
       In (BifParseBuf buf len label cfg0 err cfg) (trace a) ->
       buf = bit2bin_document inp) /\
    (forall out path mode ok,
       bin_filename a = Some out ->
       In (Fopen path mode ok) (trace a) -> path = out).
Proof.
  intros a. drive a.
  all: split;
    [ intros ? ? ? ? ? Hn H; in_trace H; same_event H; congruence
    | split;
      [ intros ? ? ? ? ? ? ? Hn H; in_trace H; same_event H; congruence
      | intros ? ? ? ? Hn H; in_trace H; same_event H; congruence ] ].
Qed.

End DriverProperties.

(** ** The node listing *)

Section ListingFacts.

Lemma print_node_listing nd n :
  print_node nd n = (List.map Printf (node_lines nd), n, Continue tt).
Proof.
  unfold print_node, node_lines, printf, bind, emit, ret.
  now destruct (bootloader nd), (load nd =? 0), (offset nd =? 0).
Qed.

Lemma print_nodes_listing l n :
  print_nodes l n = (listing_of l, n, Continue tt).
Proof.
  unfold listing_of. induction l as [|nd l IH]; [reflexivity|].
  cbn [print_nodes flat_map]. unfold bind. rewrite print_node_listing, IH.
  now rewrite map_app.
Qed.

Lemma listing_is_stdout l : stdout_only (listing_of l).
Proof.
  intros e He. unfold listing_of in He. apply in_map_iff in He as (out & <- & _).
  now exists out.
Qed.

End ListingFacts.

Ltac drive_listing_step :=
  match goal with
  | |- context [print_nodes ?l ?n] => rewrite (print_nodes_listing l n)
  | |- context [is_set ?o] => destruct o eqn:?
  | |- context [?x =? ?y] => destruct (Z.eqb_spec x y)
  | |- context [negb ?x] => destruct x eqn:?
  | |- context [match ?x with _ => _ end] =>
      lazymatch x with
      | context [match _ with _ => _ end] => fail
      | _ => destruct x eqn:?
      end
  end.

(** As [drive], with the node listing written out. *)
Ltac drive_listing a :=
  unfold trace, result;
  let r := fresh "r" in
  let Hr := fresh "Hr" in
  remember (run (main_body a)) as r eqn:Hr; revert Hr;
  unfold run, main_body, input_name, output_name, parse_input,
    after_parse, derive_filename, cleanup_no_file, cleanup_cfg, cleanup, free,
    printf, errorf, malloc, bind, emit, ret, leave;
  reduce_run; repeat (drive_listing_step; reduce_run); subst;
  intros Hr; subst r; cbn [fst snd].

Section ListingProperties.

Context {K : Constants} {X : Externals}.

(** X14. When the parser returns no error and at least one node, the run
    prints the header with the input path and then, before any call of
    the estimator or the compositor and before any access to the output
    file, the lines of every node the parser left, in their order. *)
Theorem nodes_are_listed_in_order :
  forall (a : arguments) (cfg : bif_cfg),
    parser_returned (trace a) 0 cfg ->
    nodes cfg <> [] ->
    exists input before after,
      input_path a input /\
      trace a =
        (before ++ Printf ("Nodes found in the " ++ input ++ " file:" ++ nl)
                :: listing_of (nodes cfg) ++ after)%list /\
      no_image_built before /\ no_output before.
Proof.
  intros a cfg. unfold parser_returned, no_image_built, no_output, input_path.
  rewrite <- nodes_num_zero. drive_listing a.
  all: intros [(? & ? & H)|(? & ? & ? & ? & H)] Hn.
  all: try match goal with
           | |- context [listing_of ?l] => pose proof (listing_is_stdout l)
           end.
  all: in_trace H.
  all: try refuted H.
  all: same_event H; try congruence.
  all: do 3 eexists;
       (split;
        [ first [ left; reflexivity
                | right; split; [reflexivity | eexists; split; reflexivity] ]
        | split; [find_split | split; absent] ]).
Qed.
End ListingProperties.

(** ** Command lines *)

Section CommandLines.

(** What the callback does for an option. *)
Lemma argp_parser_option key arg arg_num a :
  is_option (key, arg) = true ->
  (key =? ARGP_KEY_ARG) = false /\
  exists a',
    argp_parser key arg arg_num a = Parsed 0 a' /\
    bif_filename a' = (if is_flag "i" (key, arg) then arg else bif_filename a) /\
    bin_filename a' = (if is_flag "o" (key, arg) then arg else bin_filename a).
Proof.
  unfold is_option, is_flag, argp_parser. cbn [fst].
  destruct (Z.eqb_spec key (key_of "u")) as [->|_]; [intros _; split; [reflexivity|]; eexists; repeat split|].
  destruct (Z.eqb_spec key (key_of "p")) as [->|_]; [intros _; split; [reflexivity|]; eexists; repeat split|].
  destruct (Z.eqb_spec key (key_of "b")) as [->|_]; [intros _; split; [reflexivity|]; eexists; repeat split|].
  destruct (Z.eqb_spec key (key_of "i")) as [->|_]; [intros _; split; [reflexivity|]; eexists; repeat split|].
  destruct (Z.eqb_spec key (key_of "o")) as [->|_]; [intros _; split; [reflexivity|]; eexists; repeat split|].
  discriminate.
Qed.

Lemma argp_parse_options opts :
  forall arg_num a0,
    forallb is_option opts = true ->
    exists a1,
      (forall rest, argp_parse (opts ++ rest) arg_num a0 = argp_parse rest arg_num a1) /\
      bif_filename a1 = last_named "i" opts (bif_filename a0) /\
      bin_filename a1 = last_named "o" opts (bin_filename a0).
Proof.
  induction opts as [|[key arg] opts IH]; intros arg_num a0 H.
  - exists a0. repeat split.
  - cbn [forallb] in H. apply andb_prop in H as [Hc Hopts].
    destruct (argp_parser_option key arg arg_num a0 Hc) as (Hk & a' & Hp & Hi & Ho).
    destruct (IH arg_num a' Hopts) as (a1 & Hrest & Hi1 & Ho1).
    exists a1. split; [|split].
    + intros rest. cbn [app argp_parse]. rewrite Hp, Hk. cbn [andb]. apply Hrest.
    + rewrite Hi1, Hi. reflexivity.
    + rewrite Ho1, Ho. reflexivity.
Qed.

Lemma last_named_without (c : ascii) (calls : list (Z * option string)) :
  forall init, existsb (is_flag c) calls = false -> last_named c calls init = init.
Proof.
  unfold last_named. induction calls as [|call calls IH]; intros init H; [reflexivity|].
  cbn in H |- *. apply orb_false_elim in H as [Hc Hr]. rewrite Hc. now apply IH.
Qed.

(** The callback's answer to the first positional argument, and to the
    second. *)
Lemma first_positional arg a :
  argp_parser ARGP_KEY_ARG arg 0 a =
  if names_set a then Usage
  else Parsed 0 {| zynqmp := zynqmp a; parse_only := parse_only a; bit2bin := bit2bin a;
                   bif_filename := arg; bin_filename := bin_filename a |}.
Proof. reflexivity. Qed.

Lemma second_positional arg a :
  argp_parser ARGP_KEY_ARG arg 1 a =
  if is_set (bin_filename a) then Usage
  else Parsed 0 {| zynqmp := zynqmp a; parse_only := parse_only a; bit2bin := bit2bin a;
                   bif_filename := bif_filename a; bin_filename := arg |}.
Proof. reflexivity. Qed.

Lemma end_of_arguments arg arg_num a :
  argp_parser ARGP_KEY_END arg arg_num a = if names_set a then Parsed 0 a else Usage.
Proof.
  unfold argp_parser, names_set. cbn.
  now destruct (bif_filename a), (bin_filename a).
Qed.

Lemma names_stay_set key arg arg_num a err a' :
  (key =? ARGP_KEY_ARG) = false ->
  carries_name (key, arg) = true ->
  argp_parser key arg arg_num a = Parsed err a' ->
  names_set a || names_file (key, arg) = true ->
  names_set a' = true.
Proof.
  unfold carries_name, names_file, is_flag, argp_parser, names_set. cbn [fst snd].
  intros Hk. rewrite Hk.
  destruct (Z.eqb_spec key (key_of "u")) as [->|_]; [cbn; intros _ [= <- <-]; cbn; now rewrite orb_false_r|].
  destruct (Z.eqb_spec key (key_of "p")) as [->|_]; [cbn; intros _ [= <- <-]; cbn; now rewrite orb_false_r|].
  destruct (Z.eqb_spec key (key_of "b")) as [->|_]; [cbn; intros _ [= <- <-]; cbn; now rewrite orb_false_r|].
  destruct (Z.eqb_spec key (key_of "i")) as [->|_].
  { cbn. intros Ha [= <- <-] _. cbn. now rewrite Ha. }
  destruct (Z.eqb_spec key (key_of "o")) as [->|_].
  { cbn. intros Ha [= <- <-] _. cbn. rewrite Ha. apply orb_true_r. }
  cbn. intros _.
  destruct (key =? ARGP_KEY_END).
  - destruct (negb (is_set (bif_filename a)) && negb (is_set (bin_filename a)));
      [discriminate|]. intros [= <- <-]. now rewrite orb_false_r.
  - intros [= <- <-]. now rewrite orb_false_r.
Qed.

(** X15. Once [-i] or [-o] has named a file, the first positional argument
    ends the process with the usage message: whatever follows, [argp_parse]
    does not return. *)
Theorem named_files_exclude_positionals :
  forall (calls rest : list (Z * option string)) (arg : option string),
    forallb carries_name calls = true ->
    existsb is_positional calls = false ->
    existsb names_file calls = true ->
    argp_parse (calls ++ (ARGP_KEY_ARG, arg) :: rest) 0 zeroed_arguments = None.
Proof.
  intros calls rest arg Hwf Hpos Hnamed.
  assert (names_set zeroed_arguments || existsb names_file calls = true) as Hinv
    by (now rewrite Hnamed).
  clear Hnamed. revert Hwf Hpos Hinv. generalize zeroed_arguments.
  induction calls as [|[key arg'] calls IH]; intros a Hwf Hpos Hinv.
  - cbn [app argp_parse]. rewrite first_positional.
    cbn in Hinv. rewrite orb_false_r in Hinv. now rewrite Hinv.
  - cbn [forallb existsb] in Hwf, Hpos, Hinv.
    apply andb_prop in Hwf as [Hc Hwf]. apply orb_false_elim in Hpos as [Hk Hpos].
    unfold is_positional in Hk. cbn [fst] in Hk.
    cbn [app argp_parse].
    destruct (argp_parser key arg' 0 a) as [err a'|] eqn:E; [|reflexivity].
    rewrite Hk. cbn [andb]. apply IH; try assumption.
    rewrite orb_assoc in Hinv.
    destruct (names_set a || names_file (key, arg')) eqn:Hn.
    + now rewrite (names_stay_set _ _ _ _ _ _ Hk Hc E Hn).
    + cbn in Hinv. rewrite Hinv. apply orb_true_r.
Qed.

(** X16. After flags only, one positional argument is the input name and
    leaves the output name unset, two are the input name and the output
    name, a third ends the process with the usage message, and so does a
    command line with no file name at all. *)
Theorem positional_arguments_name_input_then_output :
  forall (flags : list (Z * option string)) (x y : option string),
    forallb is_option flags = true ->
    existsb (is_flag "i") flags = false ->
    existsb (is_flag "o") flags = false ->
    is_set x = true ->
    (exists a,
        argp_parse (flags ++ [(ARGP_KEY_ARG, x); (ARGP_KEY_END, None)]) 0
          zeroed_arguments = Some a /\
        bif_filename a = x /\ bin_filename a = None) /\
    (is_set y = true ->
     exists a,
        argp_parse (flags ++ [(ARGP_KEY_ARG, x); (ARGP_KEY_ARG, y); (ARGP_KEY_END, None)]) 0
          zeroed_arguments = Some a /\
        bif_filename a = x /\ bin_filename a = y) /\
    (forall z rest,
        argp_parse (flags ++ (ARGP_KEY_ARG, x) :: (ARGP_KEY_ARG, y) :: (ARGP_KEY_ARG, z) :: rest) 0
          zeroed_arguments = None) /\
    argp_parse (flags ++ [(ARGP_KEY_END, None)]) 0 zeroed_arguments = None.
Proof.
  intros flags x y Hopts Hi Ho Hx.
  destruct (argp_parse_options flags 0 zeroed_arguments Hopts) as (a1 & Hrest & Hbif & Hbin).
  rewrite (last_named_without _ _ _ Hi) in Hbif.
  rewrite (last_named_without _ _ _ Ho) in Hbin.
  cbn in Hbif, Hbin.
  assert (names_set a1 = false) as Hnone by (unfold names_set; now rewrite Hbif, Hbin).
  destruct x as [x|]; [clear Hx | discriminate].
  split; [|split; [|split]].
  - rewrite Hrest. cbn [argp_parse]. rewrite first_positional, Hnone.
    cbn -[argp_parser]. rewrite end_of_arguments. cbn.
    eexists. repeat split. exact Hbin.
  - intros Hy. destruct y as [y|]; [|discriminate].
    rewrite Hrest. cbn [argp_parse]. rewrite first_positional, Hnone.
    cbn -[argp_parser]. rewrite second_positional. cbn [bin_filename]. rewrite Hbin.
    cbn -[argp_parser]. rewrite end_of_arguments. cbn.
    eexists. repeat split.
  - intros z rest. rewrite Hrest. cbn [argp_parse].
    rewrite first_positional, Hnone.
    cbn -[argp_parser]. rewrite second_positional. cbn [bin_filename]. rewrite Hbin.
    destruct y; reflexivity.
  - rewrite Hrest. cbn [argp_parse]. now rewrite end_of_arguments, Hnone.
Qed.

(** X17. On a command line of options only, the input name is the argument
    of the last [-i] and the output name that of the last [-o]; with
    neither, the process ends with the usage message. *)
Theorem option_names_last_one_wins :
  forall opts : list (Z * option string),
    forallb is_option opts = true ->
    let input := last_named "i" opts None in
    let output := last_named "o" opts None in
    (is_set input || is_set output = false ->
     argp_parse (opts ++ [(ARGP_KEY_END, None)]) 0 zeroed_arguments = None) /\
    (is_set input || is_set output = true ->
     exists a,
       argp_parse (opts ++ [(ARGP_KEY_END, None)]) 0 zeroed_arguments = Some a /\
       bif_filename a = input /\ bin_filename a = output).
Proof.
  intros opts Hopts. cbv zeta.
  destruct (argp_parse_options opts 0 zeroed_arguments Hopts) as (a1 & Hrest & Hbif & Hbin).
  cbn in Hbif, Hbin. rewrite <- Hbif, <- Hbin. fold (names_set a1).
  rewrite Hrest. cbn [argp_parse]. rewrite end_of_arguments.
  split; intros ->; [reflexivity|]. exists a1. repeat split.
Qed.

End CommandLines.

(** ** More of [derive_filename] *)

Section DeriveProperties.

Lemma length_advance (n : nat) (s : string) :
  String.length (advance n s) = (String.length s - n)%nat.
Proof.
  revert s. induction n as [|n IH]; intros s; [cbn; lia|].
  destruct s as [|c s]; [reflexivity|]. cbn. apply IH.
Qed.

Lemma length_prefix (n : nat) (s : string) :
  (n <= String.length s)%nat -> String.length (prefix n s) = n.
Proof.
  unfold prefix. revert s. induction n as [|n IH]; intros s H.
  - now destruct s.
  - destruct s as [|c s]; [cbn in H; lia|]. cbn. f_equal. apply IH. cbn in H. lia.
Qed.

Lemma basename_offset_bound (src : string) :
  (basename_offset src <= String.length src)%nat.
Proof.
  unfold basename_offset.
  destruct (strrchr src "/") as [i|] eqn:Ei; destruct (strrchr src "\") as [j|] eqn:Ej;
    try apply strrchr_bound in Ei; try apply strrchr_bound in Ej;
    try destruct (i <? j)%nat; lia.
Qed.

Lemma derive_prefix_len_bound (src : string) :
  (derive_prefix_len src <= String.length src)%nat.
Proof.
  unfold derive_prefix_len. pose proof (basename_offset_bound src) as Hb.
  destruct (strrchr (advance (basename_offset src) src) ".") as [d|] eqn:Ed; [|lia].
  apply strrchr_bound in Ed. rewrite length_advance in Ed. lia.
Qed.

Lemma occurs_append (c : ascii) (s1 s2 : string) :
  occurs c (s1 ++ s2) = occurs c s1 || occurs c s2.
Proof.
  induction s1 as [|a s1 IH]; [reflexivity|]. cbn. now rewrite IH, orb_assoc.
Qed.

Lemma plain_inv (s : string) :
  plain s = true ->
  occurs "/" s = false /\ occurs "\" s = false /\ occurs "." s = false.
Proof.
  unfold plain. destruct (occurs "/" s), (occurs "\" s), (occurs "." s);
    try discriminate. now repeat split.
Qed.

(** A base name with a ['.'] is a stem, the last ['.'] and an extension
    without one. *)
Lemma last_dot (base : string) :
  occurs "." base = true ->
  exists stem ext, base = stem ++ String "." ext /\ occurs "." ext = false.
Proof.
  induction base as [|c base IH]; [discriminate|]. cbn. intros H.
  destruct (occurs "." base) eqn:Hb.
  - destruct (IH eq_refl) as (stem & ext & -> & He).
    exists (String c stem), ext. now split.
  - rewrite orb_false_r in H. apply Ascii.eqb_eq in H. subst c.
    exists EmptyString, base. now split.
Qed.

Lemma occurs_of_parts (c : ascii) (stem ext : string) :
  occurs c (stem ++ String "." ext) = false ->
  occurs c stem = false /\ occurs c ext = false.
Proof.
  rewrite occurs_append. cbn [occurs]. intros H.
  apply orb_false_elim in H as [H1 H2]. apply orb_false_elim in H2 as [_ H2].
  now split.
Qed.

Lemma occurs_parts (c : ascii) (stem ext : string) :
  Ascii.eqb "." c = false -> occurs c stem = false -> occurs c ext = false ->
  occurs c (stem ++ String "." ext) = false.
Proof.
  intros Hc Hs He. rewrite occurs_append. cbn [occurs]. now rewrite Hs, Hc, He.
Qed.

(** X18. The [prefix_len] characters that [memcpy] reads are within [src],
    and the allocation of [derive_filename] has room for exactly the
    string built in it and its final NUL. *)
Theorem derive_filename_buffer_fits :
  forall src new_ext : string,
    (derive_prefix_len src <= String.length src)%nat /\
    derive_alloc_size src new_ext = strlen (derive_contents src new_ext) + 1.
Proof.
  intros src new_ext. pose proof (derive_prefix_len_bound src) as Hb.
  split; [exact Hb|].
  unfold derive_alloc_size, derive_contents, strlen.
  rewrite length_append, (length_prefix _ _ Hb). lia.
Qed.

(** X19. Deriving a name from a name that was derived with the same
    extension, a ['.'] and a text without ['.'], ['/'] or ['\'], changes
    nothing, whatever the path. *)
Theorem derive_filename_is_idempotent :
  forall src ext : string,
    plain ext = true ->
    derive_contents (derive_contents src (String "." ext)) (String "." ext) =
    derive_contents src (String "." ext).
Proof.
  intros src ext Hext. apply plain_inv in Hext as (Hs & Hb & Hd).
  destruct (path_splits src) as (dir & base & -> & Hdir & Hbs & Hbb).
  assert (forall stem,
             occurs "/" stem = false -> occurs "\" stem = false ->
             derive_contents (dir ++ stem ++ String "." ext) (String "." ext) =
             dir ++ stem ++ String "." ext) as Hagain.
  { intros stem H1 H2.
    apply derive_contents_with_dot; try assumption; now apply occurs_parts. }
  destruct (occurs "." base) eqn:Hdot.
  - destruct (last_dot base Hdot) as (stem & old & -> & Hold).
    destruct (occurs_of_parts _ _ _ Hbs) as [Hss _].
    destruct (occurs_of_parts _ _ _ Hbb) as [Hsb _].
    rewrite (derive_contents_with_dot dir stem old _ Hdir Hbs Hbb Hold).
    now apply Hagain.
  - rewrite (derive_contents_without_dot dir base _ Hdir Hbs Hbb Hdot).
    now apply Hagain.
Qed.


End DeriveProperties.

(** * More of the driver at work in the sample worlds *)

(** [mkbootimage boot.bif] leaves nothing allocated. *)
Lemma release_witness :
  heap_after [] (@trace Sample.constants Sample.ordinary Sample.build) = Some [].
Proof.
  apply (@returns_release_everything Sample.constants Sample.ordinary Sample.build 0
           eq_refl (or_introl eq_refl)).
Defined.

(** [mkbootimage -b -o out/top.bin] when the document cannot be allocated:
    the derived name [out/top.bit] stays in its block. *)
Lemma document_failure_witness :
  @result Sample.constants MoreSamples.second_allocation_fails Sample.wrap_bitstream
    = Returned 20 /\
  heap_after []
    (@trace Sample.constants MoreSamples.second_allocation_fails Sample.wrap_bitstream)
    = Some [Block 0].
Proof.
  destruct (@document_allocation_failure_skips_cleanup Sample.constants
              MoreSamples.second_allocation_fails Sample.wrap_bitstream eq_refl)
    as (Hr & _ & Hheap).
  - evaluated_in.
  - intros e He. vm_compute in He.
    repeat (destruct He as [<-|He]; [reflexivity|]). destruct He.
  - exact (conj Hr Hheap).
Defined.

(** [mkbootimage boot.bif] when the image buffer cannot be allocated. *)
Lemma allocation_failure_witness :
  @result Sample.constants MoreSamples.second_allocation_fails Sample.build
    = Returned 20.
Proof.
  apply (@allocation_failure_is_out_of_memory Sample.constants
           MoreSamples.second_allocation_fails Sample.build 32).
  evaluated_in.
Defined.

(** [mkbootimage boot.bif] when the estimator returns zero. *)
Lemma zero_estimate_witness :
  @result Sample.constants MoreSamples.nothing_to_build Sample.build = Returned 1.
Proof.
  apply (@zero_estimate_is_no_file Sample.constants MoreSamples.nothing_to_build
           Sample.build Sample.parsed_cfg).
  evaluated_in.
Defined.

(** [mkbootimage boot.bif] returns success, one of the listed values. *)
Lemma return_values_witness :
  0 = EXIT_SUCCESS \/ 0 = 20 \/ 0 = 22 \/ 0 = 1 \/
  (0 <> 0 /\
   exists cfg,
     parser_returned (@trace Sample.constants Sample.ordinary Sample.build) 0 cfg) \/
  (0 <> 0 /\
   exists ofile_size,
     compositor_returned (@trace Sample.constants Sample.ordinary Sample.build)
       0 ofile_size).
Proof.
  exact (@return_values_of_main Sample.constants Sample.ordinary Sample.build 0 eq_refl).
Defined.

(** The buffer of [mkbootimage boot.bif]: eight words for an estimate of
    six. *)
Lemma buffer_witness :
  exists esize esize_aligned before after,
    @trace Sample.constants Sample.ordinary Sample.build =
      (before ++ EstimateBootImageSize Sample.parsed_cfg esize
              :: Malloc (4 * esize_aligned) (Some (Block 1))
              :: CreateBootImage (Block 1) Sample.parsed_cfg zynq_bops 0 5 :: after)%list /\
    esize <> 0 /\ esize <= esize_aligned /\ capacity esize_aligned.
Proof.
  apply (@compositor_buffer_holds_the_estimate Sample.constants Sample.ordinary
           Sample.build).
  - vm_compute. discriminate.
  - evaluated_in.
Defined.

(** [mkbootimage -p boot.bif] lists the two nodes of [boot.bif]. *)
Lemma listing_witness :
  exists input before after,
    input_path Sample.inspect input /\
    @trace Sample.constants Sample.ordinary Sample.inspect =
      (before ++ Printf ("Nodes found in the " ++ input ++ " file:" ++ nl)
              :: listing_of [Sample.fsbl; Sample.u_boot] ++ after)%list /\
    no_image_built before /\ no_output before.
Proof.
  apply (@nodes_are_listed_in_order Sample.constants Sample.ordinary Sample.inspect
           Sample.parsed_cfg).
  - left. exists "boot.bif", Sample.empty_cfg. evaluated_in.
  - discriminate.
Defined.

(** [mkbootimage -o out.bin in.bif] is refused. *)
Lemma named_files_witness :
  argp_parse
    (MoreSamples.output_option ++ [(ARGP_KEY_ARG, Some "in.bif"); (ARGP_KEY_END, None)])
    0 zeroed_arguments = None.
Proof.
  apply (named_files_exclude_positionals MoreSamples.output_option
           [(ARGP_KEY_END, None)] (Some "in.bif")); reflexivity.
Defined.

(** [mkbootimage -u a.bif b.bin]. *)
Lemma positional_witness :
  exists a,
    argp_parse
      (MoreSamples.zynqmp_flag ++
       [(ARGP_KEY_ARG, Some "a.bif"); (ARGP_KEY_ARG, Some "b.bin"); (ARGP_KEY_END, None)])
      0 zeroed_arguments = Some a /\
    bif_filename a = Some "a.bif" /\ bin_filename a = Some "b.bin".
Proof.
  destruct (positional_arguments_name_input_then_output MoreSamples.zynqmp_flag
              (Some "a.bif") (Some "b.bin") eq_refl eq_refl eq_refl eq_refl)
    as (_ & Htwo & _).
  exact (Htwo eq_refl).
Defined.

(** [mkbootimage -i a.bif -i b.bif -o c.bin]. *)
Lemma option_names_witness :
  exists a,
    argp_parse (MoreSamples.repeated_options ++ [(ARGP_KEY_END, None)]) 0
      zeroed_arguments = Some a /\
    bif_filename a = Some "b.bif" /\ bin_filename a = Some "c.bin".
Proof.
  destruct (option_names_last_one_wins MoreSamples.repeated_options eq_refl)
    as (_ & Hnamed).
  exact (Hnamed eq_refl).
Defined.

(** Twice [".bin"] on [out.d/boot.bif]. *)
Lemma idempotent_witness :
  derive_contents (derive_contents "out.d/boot.bif" ".bin") ".bin" =
  derive_contents "out.d/boot.bif" ".bin".
Proof.
  exact (derive_filename_is_idempotent "out.d/boot.bif" "bin" eq_refl).
Defined.

